(** * Project ROSE: the command loop and the conversation state

    A shallow embedding of [main.py], [ollama.py] and the two methods of
    [voice.py] the loop calls ([speak], [listen]), with the properties of
    the command resolution, of the bounded conversation history and of the
    loop's error handling.

    Python objects are records, [int] is [Z], [str] is [string] (bytes of
    the UTF-8 text: every trigger phrase is ASCII, so a substring test on
    bytes agrees with one on code points).  The collaborators outside the
    repository (microphone and recogniser, speech engine, the [ollama]
    process, the system clock) are an oracle [Env] read at every external
    call; what the program does to them is recorded in a trace of
    [Event]s.  Console output ([print], [traceback]) is not traced. *)

From Stdlib Require Import String Ascii List ZArith Lia Bool Arith.
Import ListNotations.
Open Scope string_scope.
Open Scope Z_scope.

(** ** Strings *)

(** [needle in hay] on Python strings. *)
Fixpoint str_in (needle hay : string) : bool :=
  if String.prefix needle hay then true
  else match hay with
       | EmptyString => false
       | String _ rest => str_in needle rest
       end.

(** ["sep".join(parts)] *)
Fixpoint join (sep : string) (parts : list string) : string :=
  match parts with
  | [] => ""
  | [p] => p
  | p :: rest => p ++ sep ++ join sep rest
  end.

(** [not s] for a string: true on the empty string only. *)
Definition str_falsy (s : string) : bool :=
  match s with EmptyString => true | _ => false end.

(** ** Sequences *)

(** The last [k] elements of a list (all of it when it is shorter). *)
Definition keep_last {A : Type} (k : nat) (l : list A) : list A :=
  skipn (length l - k) l.

(** ** Exceptions *)

(** The exceptions the program meets.  [KeyboardInterrupt] derives from
    [BaseException] only; the others are in the [Exception] hierarchy. *)
Inductive exn : Type :=
| KeyboardInterrupt
| TimeoutExpired
| NameError (name : string)
| OtherException (msg : string).

Definition isinstance_Exception (e : exn) : bool :=
  match e with KeyboardInterrupt => false | _ => true end.

Definition isinstance_KeyboardInterrupt (e : exn) : bool :=
  match e with KeyboardInterrupt => true | _ => false end.

Definition isinstance_TimeoutExpired (e : exn) : bool :=
  match e with TimeoutExpired => true | _ => false end.

(** ** The conversational-AI object *)

Record Message : Type := mkMessage { role : string; content : string }.

Record OllamaHandler : Type := mkHandler {
  model : string;
  conversation_history : list Message;
  max_history : Z;
  system_prompt : string;
  available : bool
}.

Definition set_conversation_history (h : list Message) (self : OllamaHandler) :=
  mkHandler (model self) h (max_history self) (system_prompt self) (available self).

Definition set_available (b : bool) (self : OllamaHandler) :=
  mkHandler (model self) (conversation_history self) (max_history self)
            (system_prompt self) b.

Definition set_max_history_field (m : Z) (self : OllamaHandler) :=
  mkHandler (model self) (conversation_history self) m
            (system_prompt self) (available self).

(** [l[start:]] with Python's rule for a negative or too large start. *)
Definition slice_from {A : Type} (start : Z) (l : list A) : list A :=
  let n := Z.of_nat (length l) in
  let s := if start <? 0 then Z.max 0 (start + n) else Z.min start n in
  skipn (Z.to_nat s) l.

(** The step that keeps the history manageable:
    [if len(h) > max_history * 2: h = h[-max_history * 2:]]. *)
Definition cap_history (self : OllamaHandler) : OllamaHandler :=
  if Z.of_nat (length (conversation_history self)) >? max_history self * 2
  then set_conversation_history
         (slice_from ((- max_history self) * 2) (conversation_history self)) self
  else self.

(** ** The world: the AI object, the count of external calls, the trace *)

Inductive Event : Type :=
| Listen (timeout : Z)
| Speak (text : string)
| Run (argv : list string) (timeout : Z)
| Now
| VoiceInit (prefer_bluetooth : bool).

Record World : Type := mkWorld {
  w_ai : OllamaHandler;
  w_tick : nat;
  w_log : list Event
}.

(** ** The state-and-exception monad *)

Inductive Result (A : Type) : Type :=
| Ok (a : A)
| Raise (e : exn).
Arguments Ok {A} a.
Arguments Raise {A} e.

Definition M (A : Type) : Type := World -> Result A * World.

Definition ret {A : Type} (a : A) : M A := fun w => (Ok a, w).

Definition bind {A B : Type} (c : M A) (k : A -> M B) : M B :=
  fun w => match c w with
           | (Ok a, w') => k a w'
           | (Raise e, w') => (Raise e, w')
           end.

Definition raise {A : Type} (e : exn) : M A := fun w => (Raise e, w).

Notation "x <- c1 ;; c2" := (bind c1 (fun x => c2))
  (at level 61, c1 at next level, right associativity).
Notation "c1 ;; c2" := (bind c1 (fun _ => c2))
  (at level 61, right associativity).

(** [try: body except C1 as e: h1 except C2 as e: h2 ...]: the first
    clause whose class test accepts the exception handles it; with none,
    it propagates.  What the body did to the world before raising stays. *)
Definition clause (A : Type) : Type := ((exn -> bool) * (exn -> M A))%type.

Definition try_except {A : Type} (body : M A) (clauses : list (clause A)) : M A :=
  fun w => match body w with
           | (Ok a, w') => (Ok a, w')
           | (Raise e, w') =>
               match find (fun c => fst c e) clauses with
               | Some c => snd c e w'
               | None => (Raise e, w')
               end
           end.

Definition get_ai : M OllamaHandler := fun w => (Ok (w_ai w), w).

Definition modify_ai (f : OllamaHandler -> OllamaHandler) : M unit :=
  fun w => (Ok tt, mkWorld (f (w_ai w)) (w_tick w) (w_log w)).

(** The world once an external call is made: traced, call count
    advanced. *)
Definition after (ev : Event) (w : World) : World :=
  mkWorld (w_ai w) (S (w_tick w)) (w_log w ++ [ev]).

(** An external call: its outcome (a value or an exception) is the
    oracle's at the current call count. *)
Definition external {A : Type} (ev : Event) (oracle : nat -> Result A) : M A :=
  fun w => (oracle (w_tick w), after ev w).

(** [subprocess.CompletedProcess] *)
Record CompletedProcess : Type := mkCompleted {
  returncode : Z;
  stdout : string;
  stderr : string
}.

Definition NL : string := String "010"%char "".

(** The collaborators, each a function of the external-call count:
    the recogniser's transcript, the speech engine, [subprocess.run],
    the clock, the construction of the voice handler. *)
Record Env (DateTime : Type) : Type := mkEnv {
  mic : nat -> Result string;
  tts : nat -> Result unit;
  proc : nat -> Result CompletedProcess;
  clock : nat -> Result DateTime;
  voice_ctor : nat -> Result unit
}.
Arguments mkEnv {DateTime}.
Arguments mic {DateTime}.
Arguments tts {DateTime}.
Arguments proc {DateTime}.
Arguments clock {DateTime}.
Arguments voice_ctor {DateTime}.

(** ** Constants of ollama.py *)

Definition the_system_prompt : string :=
"You are ROSE (Raspberry Operated Speech Engine), a voice-activated cybersecurity assistant.

Keep responses BRIEF (2-3 sentences) since they'll be spoken aloud. Only expand if asked.

You help with:
- Security concepts and vulnerabilities
- Network security and penetration testing
- Linux security and hardening
- Security tools (nmap, wireshark, metasploit)
- Code security review
- CVE explanations

".

Definition brief_suffix : string :=
  NL ++ NL ++ "(Keep response brief - 2-3 sentences for voice output)".

Definition msg_unavailable : string :=
  "AI is not available. Please install Ollama and download a model.".
Definition msg_trouble : string :=
  "I'm having trouble thinking right now. Please try again.".
Definition msg_timeout : string :=
  "Sorry, I'm thinking too slowly. Try asking something simpler.".
Definition msg_went_wrong : string :=
  "Something went wrong with my AI processing.".

(** ** Concrete collaborators, for the examples *)

Module Scenario.

(** Stand-ins for the library functions, on texts that are lower-case
    already and carry no surrounding blanks. *)
Definition lower (s : string) : string := s.
Definition strip (s : string) : string := s.
Definition strf (now : unit) (fmt : string) : string := fmt.

(** An updater that would work, were its name bound. *)
Definition check_for_updates : M (bool * string) := ret (false, "1.0").
Definition perform_update : M bool := ret true.
Definition get_current_version : M string := ret "1.0".

Definition completed (rc : Z) (out : string) : Result CompletedProcess :=
  Ok (mkCompleted rc out "").

(** Collaborators where the engine, the clock and the voice set-up
    always work; the transcripts and the process outcomes are given. *)
Definition env_of (heard : nat -> Result string)
           (runs : nat -> Result CompletedProcess) : Env unit :=
  mkEnv heard (fun _ => Ok tt) runs (fun _ => Ok tt) (fun _ => Ok tt).

Definition hears (text : string) : nat -> Result string := fun _ => Ok text.

Definition answers (out : string) : nat -> Result CompletedProcess :=
  fun _ => completed 0 out.

Definition fails : nat -> Result CompletedProcess := fun _ => completed 1 "".

(** The third run fails, the others answer. *)
Definition third_fails : nat -> Result CompletedProcess :=
  fun t => if Nat.eqb t 2 then completed 1 "" else completed 0 "ok".

(** The run at call count [t] answers with the text numbered [t]. *)
Definition numbered : nat -> Result CompletedProcess :=
  fun t => completed 0 (nth t ["r0"; "r1"; "r2"] "r").

(** A handler as [__init__] leaves it when the model is installed. *)
Definition ready : OllamaHandler :=
  mkHandler "qwen2.5:0.5b" [] 2 the_system_prompt true.

Definition unready : OllamaHandler :=
  mkHandler "qwen2.5:0.5b" [] 2 the_system_prompt false.

(** A handler with one exchange recorded. *)
Definition talked : OllamaHandler :=
  mkHandler "qwen2.5:0.5b"
    [mkMessage "user" "q"; mkMessage "assistant" "a"] 2 the_system_prompt true.

Definition world (self : OllamaHandler) : World := mkWorld self 0 [].

(** Handlers with the cap at zero and below it. *)
Definition zero_cap : OllamaHandler :=
  mkHandler "qwen2.5:0.5b" [] 0 the_system_prompt true.

Definition negative_cap : OllamaHandler :=
  mkHandler "qwen2.5:0.5b" [] (-1) the_system_prompt true.

(** Collaborators whose voice set-up fails. *)
Definition no_voice : Env unit :=
  mkEnv (hears "") (fun _ => Ok tt) fails (fun _ => Ok tt)
        (fun _ => Raise (OtherException "no audio device")).

(** Collaborators whose microphone the operator interrupts. *)
Definition interrupted : Env unit :=
  mkEnv (fun _ => Raise KeyboardInterrupt) (fun _ => Ok tt) fails
        (fun _ => Ok tt) (fun _ => Ok tt).

(** A stand-in for the split on blanks: space, tab and line feed. *)
Definition is_blank (c : ascii) : bool :=
  (c =? " ")%char || (c =? "009")%char || (c =? "010")%char.

Fixpoint words (s : string) : list string :=
  match s with
  | EmptyString => []
  | String c rest =>
      if is_blank c then words rest
      else match rest with
           | EmptyString => [String c EmptyString]
           | String d _ =>
               if is_blank d then String c EmptyString :: words rest
               else match words rest with
                    | t :: ts => String c t :: ts
                    | [] => [String c EmptyString]
                    end
           end
  end.

(** A card listing of two lines; the second names a bluez card. *)
Definition card_listing : string :=
  "0 alsa_card.platform module-alsa-card.c" ++ NL
  ++ "1 bluez_card.AA_BB module-bluez5-device.c".

(** A listing whose first bluez line has one word only. *)
Definition short_line_listing : string :=
  "bluez_card" ++ NL ++ "1 bluez_card.AA_BB module-bluez5-device.c".

End Scenario.

Section Rose.

(** Library functions the code calls: [str.lower], [str.strip], and
    [datetime.strftime] on the value [datetime.now()] returns. *)
Variable str_lower : string -> string.
Variable str_strip : string -> string.
Variable DateTime : Type.
Variable strftime : DateTime -> string -> string.

Variable env : Env DateTime.

(** ** voice.py *)

(** [VoiceHandler(prefer_bluetooth)]: engine, recogniser and microphone
    set-up, taken as one external call that returns or raises. *)
Definition VoiceHandler_init (prefer_bluetooth : bool) : M unit :=
  external (VoiceInit prefer_bluetooth) (voice_ctor env).

(** [VoiceHandler.speak]: errors of the engine are printed and dropped. *)
Definition speak (text : string) : M unit :=
  try_except
    (external (Speak text) (tts env))
    [(isinstance_Exception, fun _ => ret tt)].

(** [VoiceHandler.listen]: the lowercased transcript; the four [except]
    clauses (wait timeout, unknown value, request error, [Exception]) all
    return the empty string. *)
Definition listen (timeout : Z) : M string :=
  try_except
    (text <- external (Listen timeout) (mic env) ;;
     ret (str_lower text))
    [(isinstance_Exception, fun _ => ret "")].

(** ** ollama.py *)

Definition subprocess_run (argv : list string) (timeout : Z) : M CompletedProcess :=
  external (Run argv timeout) (proc env).

Definition _check_ollama : M unit :=
  try_except
    (result <- subprocess_run ["which"; "ollama"] 2 ;;
     if negb (returncode result =? 0) then
       modify_ai (set_available false)
     else
       result <- subprocess_run ["ollama"; "list"] 5 ;;
       self <- get_ai ;;
       if negb (str_in (model self) (stdout result)) then
         modify_ai (set_available false)
       else
         modify_ai (set_available true))
    [(isinstance_Exception, fun _ => modify_ai (set_available false))].

(** [OllamaHandler.__init__]; [available] is first assigned by
    [_check_ollama], on each of its paths. *)
Definition OllamaHandler_init (model : string) : M unit :=
  modify_ai (fun _ => mkHandler model [] 2 the_system_prompt false) ;;
  _check_ollama.

Definition is_available : M bool :=
  self <- get_ai ;; ret (available self).

Definition format_part (msg : Message) : list string :=
  if (role msg =? "system")%string then ["System: " ++ content msg ++ NL]
  else if (role msg =? "user")%string then ["User: " ++ content msg ++ NL]
  else if (role msg =? "assistant")%string then ["Assistant: " ++ content msg ++ NL]
  else [].

Definition _format_messages (messages : list Message) : string :=
  join NL (flat_map format_part messages ++ ["Assistant:"])%list.

Definition append_history (m : Message) : M unit :=
  modify_ai (fun self =>
    set_conversation_history (conversation_history self ++ [m])%list self).

Definition ask (user_message : string) (brief : bool) : M string :=
  avail <- is_available ;;
  if negb avail then ret msg_unavailable
  else
    try_except
      (self <- get_ai ;;
       let messages := [mkMessage "system" (system_prompt self)] in
       let messages := (messages ++ conversation_history self)%list in
       let user_message :=
         if brief then user_message ++ brief_suffix else user_message in
       let messages := (messages ++ [mkMessage "user" user_message])%list in
       let prompt := _format_messages messages in
       result <- subprocess_run ["ollama"; "run"; model self; prompt] 60 ;;
       if negb (returncode result =? 0) then ret msg_trouble
       else
         let response := str_strip (stdout result) in
         append_history (mkMessage "user" user_message) ;;
         append_history (mkMessage "assistant" response) ;;
         modify_ai cap_history ;;
         ret response)
      [(isinstance_TimeoutExpired, fun _ => ret msg_timeout);
       (isinstance_Exception, fun _ => ret msg_went_wrong)].

Definition clear_history : M unit :=
  modify_ai (set_conversation_history []).

Definition set_max_history (max_exchanges : Z) : M unit :=
  modify_ai (set_max_history_field max_exchanges).

(** ** main.py *)

(** The names bound at module level in main.py (imports and [main]). *)
Definition module_globals : list string :=
  ["sys"; "datetime"; "VoiceHandler"; "OllamaHandler"; "main"].

(** Reading a global name inside [main]: a name neither local nor bound
    in the module raises [NameError]. *)
Definition load_global (name : string) : M unit :=
  if existsb (String.eqb name) module_globals then ret tt
  else raise (NameError name).

(** What the methods of the object named [updater] would do, were the
    name bound: nothing in the repository defines them. *)
Variable updater_check_for_updates : M (bool * string).
Variable updater_perform_update : M bool.
Variable updater_get_current_version : M string.

Definition datetime_now : M DateTime := external Now (clock env).

(** How one pass through the loop body ends. *)
Inductive LoopCtl : Type := NextTurn | BreakLoop.

Definition act_wake (command : string) : M LoopCtl :=
  speak "Yes? How can I help you?" ;; ret NextTurn.

Definition act_hello (command : string) : M LoopCtl :=
  speak "Hello! I'm here and listening." ;; ret NextTurn.

Definition act_time (command : string) : M LoopCtl :=
  now <- datetime_now ;;
  let time_str := strftime now "%I:%M %p" in
  speak ("The time is " ++ time_str ++ ".") ;; ret NextTurn.

Definition act_date (command : string) : M LoopCtl :=
  now <- datetime_now ;;
  let date_str := strftime now "%A, %B %d, %Y" in
  speak ("Today is " ++ date_str ++ ".") ;; ret NextTurn.

Definition act_status (command : string) : M LoopCtl :=
  speak "I'm functioning optimally. All systems nominal." ;; ret NextTurn.

Definition act_thanks (command : string) : M LoopCtl :=
  speak "You're welcome!" ;; ret NextTurn.

Definition msg_history_cleared : string := "Conversation history cleared.".
Definition msg_ai_unavailable : string := "AI is not available.".

Definition act_clear_history (command : string) : M LoopCtl :=
  avail <- is_available ;;
  (if avail then
     clear_history ;;
     speak msg_history_cleared
   else
     speak msg_ai_unavailable) ;;
  ret NextTurn.

Definition act_check_updates (command : string) : M LoopCtl :=
  speak "Checking for updates..." ;;
  load_global "updater" ;;
  r <- updater_check_for_updates ;;
  let '(has_updates, version) := r in
  (if has_updates then
     speak ("Updates available. Version " ++ version
            ++ ". Say update rose to install.")
   else
     speak "You're running the latest version.") ;;
  ret NextTurn.

Definition act_update (command : string) : M LoopCtl :=
  speak "Starting update process. Creating backup..." ;;
  load_global "updater" ;;
  success <- updater_perform_update ;;
  if success then
    speak "Update complete! I need to restart. Shutting down now." ;;
    ret BreakLoop
  else
    speak "Update failed. I'm still running the old version." ;;
    ret NextTurn.

Definition act_version (command : string) : M LoopCtl :=
  load_global "updater" ;;
  version <- updater_get_current_version ;;
  speak ("I'm running version " ++ version ++ ".") ;; ret NextTurn.

Definition msg_farewell : string := "Understood. Rose shutting down. Goodbye.".

Definition act_exit (command : string) : M LoopCtl :=
  speak msg_farewell ;; ret BreakLoop.

Definition msg_thinking : string := "Thinking...".

Definition echo_reply (command : string) : string :=
  "I heard: " ++ command ++ ". I'm still learning new commands.".

Definition act_default (command : string) : M LoopCtl :=
  avail <- is_available ;;
  (if avail then
     speak msg_thinking ;;
     response <- ask command true ;;
     speak response
   else
     speak (echo_reply command)) ;;
  ret NextTurn.

(** The [if]/[elif] chain of the loop body. *)
Definition dispatch (command : string) : M LoopCtl :=
  if str_in "hey rose" command || str_in "hello rose" command then
    act_wake command
  else if str_in "hello" command || str_in "hi" command then
    act_hello command
  else if str_in "what time" command || str_in "tell me the time" command then
    act_time command
  else if str_in "what day" command || str_in "what's the date" command then
    act_date command
  else if str_in "how are you" command then
    act_status command
  else if str_in "thank you" command || str_in "thanks" command then
    act_thanks command
  else if str_in "clear history" command || str_in "reset conversation" command then
    act_clear_history command
  else if str_in "check for updates" command || str_in "check updates" command then
    act_check_updates command
  else if str_in "update rose" command || str_in "update yourself" command then
    act_update command
  else if str_in "what version" command || str_in "your version" command then
    act_version command
  else if str_in "exit" command || str_in "goodbye" command
          || str_in "shut down" command then
    act_exit command
  else
    act_default command.

(** The body of the inner [try]: listen, skip an empty command, dispatch. *)
Definition turn_body : M LoopCtl :=
  command <- listen 10 ;;
  if str_falsy command then ret NextTurn
  else dispatch command.

Definition msg_interrupt : string := "Manual interrupt received. Going offline.".
Definition msg_apology : string := "An error occurred. Please check the console.".

Definition on_interrupt (e : exn) : M LoopCtl :=
  speak msg_interrupt ;; ret BreakLoop.

Definition on_error (e : exn) : M LoopCtl :=
  speak msg_apology ;; ret NextTurn.

(** The inner [try] with its two handlers, around any loop body. *)
Definition guarded (body : M LoopCtl) : M LoopCtl :=
  try_except body
    [(isinstance_KeyboardInterrupt, on_interrupt);
     (isinstance_Exception, on_error)].

(** One iteration of [while True]. *)
Definition turn : M LoopCtl := guarded turn_body.

(** How an observation of the loop ends: it broke out, or it is still
    running after the iterations observed. *)
Inductive LoopEnd : Type := Broke | StillLooping.

(** [while True: iteration], observed for [fuel] iterations. *)
Fixpoint loop (iteration : M LoopCtl) (fuel : nat) : M LoopEnd :=
  match fuel with
  | O => ret StillLooping
  | S fuel' =>
      c <- iteration ;;
      match c with
      | BreakLoop => ret Broke
      | NextTurn => loop iteration fuel'
      end
  end.

Definition main_loop (fuel : nat) : M LoopEnd := loop turn fuel.

Definition startup : M unit :=
  VoiceHandler_init true ;;
  OllamaHandler_init "qwen2.5:0.5b" ;;
  speak "System online. Rose activated and ready." ;;
  avail <- is_available ;;
  (if avail then
     speak "Artificial intelligence module loaded. I can help with cybersecurity questions."
   else
     speak "Running in basic mode. AI features unavailable.") ;;
  speak "Say hey rose to get my attention, or say exit to shut down.".

(** How the process stands after [main]: [sys.exit] with a code, killed
    by an exception no handler took, or still in the loop. *)
Inductive Status : Type :=
| Exited (code : Z)
| Killed (e : exn)
| Running.

(** [main()]: the outer [try] turns any [Exception] into exit code 1;
    falling out of the loop leads to [sys.exit(0)]. *)
Definition main (fuel : nat) : World -> Status * World :=
  fun w => match (startup ;; main_loop fuel) w with
           | (Ok Broke, w') => (Exited 0, w')
           | (Ok StillLooping, w') => (Running, w')
           | (Raise e, w') =>
               if isinstance_Exception e then (Exited 1, w') else (Killed e, w')
           end.

(** ** The intent table, as the specification words it *)

(** A rule pairs trigger phrases with an action. *)
Record Rule : Type := mkRule {
  triggers : list string;
  action : string -> M LoopCtl
}.

Definition rule_matches (command : string) (r : Rule) : bool :=
  existsb (fun t => str_in t command) (triggers r).

Definition rule_wake := mkRule ["hey rose"; "hello rose"] act_wake.
Definition rule_hello := mkRule ["hello"; "hi"] act_hello.
Definition rule_time := mkRule ["what time"; "tell me the time"] act_time.
Definition rule_date := mkRule ["what day"; "what's the date"] act_date.
Definition rule_status := mkRule ["how are you"] act_status.
Definition rule_thanks := mkRule ["thank you"; "thanks"] act_thanks.
Definition rule_clear_history :=
  mkRule ["clear history"; "reset conversation"] act_clear_history.
Definition rule_check_updates :=
  mkRule ["check for updates"; "check updates"] act_check_updates.
Definition rule_update := mkRule ["update rose"; "update yourself"] act_update.
Definition rule_version := mkRule ["what version"; "your version"] act_version.
Definition rule_exit := mkRule ["exit"; "goodbye"; "shut down"] act_exit.

(** The fixed table, in declaration order. *)
Definition intent_table : list Rule :=
  [ rule_wake; rule_hello; rule_time; rule_date; rule_status; rule_thanks;
    rule_clear_history; rule_check_updates; rule_update; rule_version;
    rule_exit ].

(** First-match-wins selection over a table: the action of the first
    matching rule, the default action when none matches. *)
Definition select (table : list Rule) (command : string) : string -> M LoopCtl :=
  match find (rule_matches command) table with
  | Some r => action r
  | None => act_default
  end.

(** An intent fires on a command: its rule is the first that matches. *)
Definition fires (command : string) (r : Rule) : Prop :=
  find (rule_matches command) intent_table = Some r.

(** The turn that starts in [w] ends the loop through the exit rule. *)
Definition exit_intent_turn (w w' : World) : Prop :=
  exists command w1,
    listen 10 w = (Ok command, w1) /\ command <> "" /\
    fires command rule_exit /\
    act_exit command w1 = (Ok BreakLoop, w').

(** A keyboard interrupt is raised in the turn that starts in [w]: in
    the loop body, where the handler acknowledges it and breaks, or in a
    handler, where nothing catches it. *)
Definition interrupted_turn (w w' : World) : Prop :=
  (exists w1, turn_body w = (Raise KeyboardInterrupt, w1) /\
              on_interrupt KeyboardInterrupt w1 = (Ok BreakLoop, w'))
  \/ turn w = (Raise KeyboardInterrupt, w').

(** ** Sequences of questions *)

(** Question after question, as the module's self-test asks them. *)
Fixpoint ask_each (questions : list string) : M (list string) :=
  match questions with
  | [] => ret []
  | q :: rest =>
      r <- ask q true ;;
      rs <- ask_each rest ;;
      ret (r :: rs)
  end.

(** The two messages of the exchange that a question asked at call count
    [t] completes; none when the model process fails there. *)
Definition exchange_at (t : nat) (q : string) : list Message :=
  match proc env t with
  | Ok result =>
      if returncode result =? 0 then
        [mkMessage "user" (q ++ brief_suffix);
         mkMessage "assistant" (str_strip (stdout result))]
      else []
  | Raise _ => []
  end.

(** The messages of the successful exchanges among questions asked from
    call count [t] on, oldest first. *)
Fixpoint exchanges_from (t : nat) (questions : list string) : list Message :=
  match questions with
  | [] => []
  | q :: rest => (exchange_at t q ++ exchanges_from (S t) rest)%list
  end.

(** The cap in entries, [2 * max_history]. *)
Definition cap (self : OllamaHandler) : nat := Z.to_nat (2 * max_history self).

(** The user message [ask] sends and records. *)
Definition sent_text (user_message : string) (brief : bool) : string :=
  if brief then user_message ++ brief_suffix else user_message.

(** The command line [ask] runs. *)
Definition ask_argv (self : OllamaHandler) (user_message : string) (brief : bool)
  : list string :=
  ["ollama"; "run"; model self;
   _format_messages
     ([mkMessage "system" (system_prompt self)]
        ++ conversation_history self
        ++ [mkMessage "user" (sent_text user_message brief)])%list].

(** The handler once an exchange is recorded: both entries appended,
    then the cap step. *)
Definition record_exchange (self : OllamaHandler) (sent response : string)
  : OllamaHandler :=
  cap_history
    (set_conversation_history
       (conversation_history self
          ++ [mkMessage "user" sent; mkMessage "assistant" response])%list self).

(** A phrase occurs somewhere in a text. *)
Definition occurs (phrase text : string) : Prop :=
  exists pre post, text = pre ++ phrase ++ post.

(** A rule has a trigger occurring in the command. *)
Definition triggered (command : string) (r : Rule) : Prop :=
  exists t, In t (triggers r) /\ occurs t command.

(** ** voice.py: microphone and Bluetooth set-up *)

(** [line.split()], the library's split on runs of blanks. *)
Variable str_split : string -> list string.

Definition bluetooth_keywords : list string :=
  ["bluez"; "crusher"; "bluetooth"; "bt"; "wireless"].

(** [any(keyword in name.lower() for keyword in bluetooth_keywords)] *)
Definition is_bluetooth_name (name : string) : bool :=
  existsb (fun keyword => str_in keyword (str_lower name)) bluetooth_keywords.

(** [for i, name in enumerate(names): if test(name): index = i; break],
    with the count starting at [i]; [None] when the loop never breaks. *)
Fixpoint first_index {A : Type} (test : A -> bool) (names : list A) (i : nat)
  : option nat :=
  match names with
  | [] => None
  | name :: rest =>
      if test name then Some i else first_index test rest (S i)
  end.

(** [VoiceHandler._select_microphone]: the value it leaves in
    [mic_index], given the names the recogniser library lists. *)
Definition _select_microphone (mic_names : list string) (prefer_bluetooth : bool)
  : option nat :=
  match mic_names with
  | [] => None
  | _ =>
      if prefer_bluetooth then first_index is_bluetooth_name mic_names 0
      else None
  end.

(** [s.split(sep)] for a separator of one character. *)
Fixpoint split_on (sep : ascii) (s : string) : list string :=
  match s with
  | EmptyString => [EmptyString]
  | String c rest =>
      if Ascii.eqb c sep then EmptyString :: split_on sep rest
      else match split_on sep rest with
           | cur :: others => String c cur :: others
           | [] => [String c EmptyString]
           end
  end.

(** [line.split()[1]] *)
Definition second_token (line : string) : M string :=
  match nth_error (str_split line) 1 with
  | Some token => ret token
  | None => raise (OtherException "list index out of range")
  end.

(** The [for line in ...] loop of [_set_bluetooth_headset_mode]: the
    first line that names a bluez card decides, and the method returns. *)
Fixpoint switch_first_card (lines : list string) : M unit :=
  match lines with
  | [] => ret tt
  | line :: rest =>
      if str_in "bluez_card" line then
        card_name <- second_token line ;;
        subprocess_run
          ["pactl"; "set-card-profile"; card_name; "headset_head_unit"] 5 ;;
        ret tt
      else switch_first_card rest
  end.

(** [VoiceHandler._set_bluetooth_headset_mode]; its three [except]
    clauses (file not found, timeout, [Exception]) only print. *)
Definition _set_bluetooth_headset_mode : M unit :=
  try_except
    (result <- subprocess_run ["pactl"; "list"; "cards"; "short"] 5 ;;
     switch_first_card (split_on "010"%char (stdout result)))
    [(isinstance_TimeoutExpired, fun _ => ret tt);
     (isinstance_Exception, fun _ => ret tt)].

(** The end of [VoiceHandler.__init__]: select the microphone, then try
    the headset mode when one was selected and Bluetooth is preferred. *)
Definition microphone_setup (mic_names : list string) (prefer_bluetooth : bool)
  : M (option nat) :=
  let mic_index := _select_microphone mic_names prefer_bluetooth in
  (match mic_index with
   | Some _ => if prefer_bluetooth then _set_bluetooth_headset_mode else ret tt
   | None => ret tt
   end) ;;
  ret mic_index.

(** ** Relations between the world before and after a computation *)

(** A computation takes every world to one related to it. *)
Definition respects {A : Type} (R : World -> World -> Prop) (c : M A) : Prop :=
  forall w, R w (snd (c w)).

(** The AI object is as it was. *)
Definition same_ai (w w' : World) : Prop := w_ai w' = w_ai w.

Definition is_run (ev : Event) : bool :=
  match ev with Run _ _ => true | _ => false end.

(** No process was run in between. *)
Definition no_new_run (w w' : World) : Prop :=
  filter is_run (w_log w') = filter is_run (w_log w).

(** Neither the AI object nor any process was touched. *)
Definition ai_untouched (w w' : World) : Prop :=
  same_ai w w' /\ no_new_run w w'.

(** The settings of the AI object are as they were; only the history
    may differ. *)
Definition same_settings (w w' : World) : Prop :=
  model (w_ai w') = model (w_ai w) /\
  max_history (w_ai w') = max_history (w_ai w) /\
  system_prompt (w_ai w') = system_prompt (w_ai w) /\
  available (w_ai w') = available (w_ai w).

(** A history made of (user, assistant) pairs. *)
Fixpoint paired (h : list Message) : bool :=
  match h with
  | [] => true
  | u :: a :: rest =>
      (role u =? "user")%string && (role a =? "assistant")%string && paired rest
  | _ => false
  end.

(** ** The prompt, block by block *)

Definition str_concat (parts : list string) : string :=
  fold_right String.append "" parts.

(** What one message adds to the prompt. *)
Definition block (msg : Message) : string :=
  str_concat (map (fun part => part ++ NL) (format_part msg)).

Definition prompt_body (messages : list Message) : string :=
  str_concat (map block messages).

(** What one step may do to the AI object: nothing, clear its history,
    or record an exchange. *)
Definition ai_step (self self' : OllamaHandler) : Prop :=
  self' = self \/
  self' = set_conversation_history [] self \/
  exists sent response, self' = record_exchange self sent response.

(** The texts of the [speak] calls in a trace, in order. *)
Definition spoken (log : list Event) : list string :=
  flat_map (fun ev => match ev with Speak text => [text] | _ => [] end) log.

(** The command lines of the processes run in a trace, in order. *)
Definition commands_run (log : list Event) : list (list string) :=
  flat_map (fun ev => match ev with Run argv _ => [argv] | _ => [] end) log.

(** No keyboard interrupt ever reaches the speech engine or a process. *)
Definition never_interrupted : Prop :=
  forall t, tts env t <> Raise KeyboardInterrupt /\
            proc env t <> Raise KeyboardInterrupt.

(** A handler as [__init__] makes it, before Ollama is checked. *)
Definition new_handler (model : string) : OllamaHandler :=
  mkHandler model [] 2 the_system_prompt false.

(** * Properties *)

(** ** What the collaborators' methods return *)

Lemma speak_spec (text : string) (w : World) :
  speak text w =
  (match tts env (w_tick w) with
   | Raise KeyboardInterrupt => Raise KeyboardInterrupt
   | _ => Ok tt
   end, after (Speak text) w).
Proof.
  unfold speak, try_except, external.
  destruct (tts env (w_tick w)) as [[]|[]]; reflexivity.
Qed.

Lemma listen_spec (timeout : Z) (w : World) :
  listen timeout w =
  (match mic env (w_tick w) with
   | Ok text => Ok (str_lower text)
   | Raise KeyboardInterrupt => Raise KeyboardInterrupt
   | Raise _ => Ok ""
   end, after (Listen timeout) w).
Proof.
  unfold listen, try_except, bind, external, ret.
  destruct (mic env (w_tick w)) as [text|[]]; reflexivity.
Qed.

Lemma ask_spec (user_message : string) (brief : bool) (w : World) :
  ask user_message brief w =
  if negb (available (w_ai w)) then (Ok msg_unavailable, w)
  else
    let w1 := after (Run (ask_argv (w_ai w) user_message brief) 60) w in
    match proc env (w_tick w) with
    | Ok result =>
        if returncode result =? 0 then
          (Ok (str_strip (stdout result)),
           mkWorld (record_exchange (w_ai w) (sent_text user_message brief)
                      (str_strip (stdout result)))
                   (w_tick w1) (w_log w1))
        else (Ok msg_trouble, w1)
    | Raise KeyboardInterrupt => (Raise KeyboardInterrupt, w1)
    | Raise TimeoutExpired => (Ok msg_timeout, w1)
    | Raise _ => (Ok msg_went_wrong, w1)
    end.
Proof.
  unfold ask, is_available, bind, get_ai, ret.
  destruct (available (w_ai w)); cbn [negb]; [|reflexivity].
  unfold try_except, bind, subprocess_run, external, get_ai, ask_argv, sent_text.
  cbn [app].
  destruct (proc env (w_tick w)) as [result|[]]; try reflexivity.
  destruct (returncode result =? 0); cbn [negb]; [|reflexivity].
  unfold append_history, modify_ai, ret, record_exchange, after; cbn.
  rewrite <- app_assoc. reflexivity.
Qed.

(** ** Substring test *)

Lemma prefix_app (p s : string) :
  String.prefix p s = true <-> exists rest, s = p ++ rest.
Proof.
  revert s; induction p as [|a p IH]; intros s; cbn.
  - split; [intros _; exists s; reflexivity | intros _; destruct s; reflexivity].
  - destruct s as [|b s]; cbn.
    + split; [discriminate | intros [rest H]; discriminate].
    + destruct (Ascii.ascii_dec a b) as [->|Hab].
      * rewrite IH. split; intros [rest H]; exists rest; congruence.
      * split; [discriminate | intros [rest H]; congruence].
Qed.

(** [str_in] is occurrence anywhere in the text. *)
Lemma str_in_occurs (needle hay : string) :
  str_in needle hay = true <-> exists pre post, hay = pre ++ needle ++ post.
Proof.
  induction hay as [|c hay IH]; cbn [str_in].
  - destruct (String.prefix needle "") eqn:Hp.
    + apply prefix_app in Hp as [rest H].
      split; [intros _; exists "", rest; exact H | reflexivity].
    + split; [discriminate|].
      intros [pre [post H]]. destruct pre; cbn in H.
      * assert (String.prefix needle "" = true) by (apply prefix_app; eauto).
        congruence.
      * discriminate.
  - destruct (String.prefix needle (String c hay)) eqn:Hp.
    + apply prefix_app in Hp as [rest H].
      split; [intros _; exists "", rest; exact H | reflexivity].
    + rewrite IH. split.
      * intros [pre [post H]]. exists (String c pre), post. cbn. congruence.
      * intros [pre [post H]]. destruct pre as [|d pre]; cbn in H.
        -- assert (String.prefix needle (String c hay) = true)
             by (apply prefix_app; eauto).
           congruence.
        -- exists pre, post. congruence.
Qed.

(** ** The chain is first-match over the table *)

Ltac unfold_table :=
  unfold intent_table, rule_matches, rule_wake, rule_hello, rule_time,
    rule_date, rule_status, rule_thanks, rule_clear_history,
    rule_check_updates, rule_update, rule_version, rule_exit;
  cbn [find existsb triggers action];
  rewrite !orb_false_r, ?orb_assoc.

(** Cases on the conditions of the chain, first to last. *)
Ltac chain_cases :=
  repeat match goal with
         | |- context [if ?c then _ else _] =>
             match c with
             | context [str_in _ _] => destruct c
             end
         end.

Lemma dispatch_select (command : string) :
  dispatch command = select intent_table command command.
Proof.
  unfold dispatch, select. unfold_table.
  chain_cases; reflexivity.
Qed.

(** What [find] returns is at the lowest matching index. *)
Lemma find_lowest {A : Type} (p : A -> bool) (l : list A) (x : A) :
  find p l = Some x ->
  exists i, nth_error l i = Some x /\ p x = true /\
            forall j y, (j < i)%nat -> nth_error l j = Some y -> p y = false.
Proof.
  induction l as [|a l IH]; cbn; [discriminate|].
  destruct (p a) eqn:Hpa.
  - intros [= <-]. exists 0%nat. repeat split; auto. intros j y Hj. lia.
  - intros H. destruct (IH H) as [i [Hi [Hx Hlow]]].
    exists (S i). repeat split; auto.
    intros [|j] y Hj; cbn.
    + intros [= <-]. exact Hpa.
    + apply Hlow. lia.
Qed.

Lemma rule_matches_triggered (command : string) (r : Rule) :
  rule_matches command r = true <-> triggered command r.
Proof.
  unfold rule_matches, triggered, occurs. rewrite existsb_exists.
  split; intros [t [Hin H]]; exists t; split; auto; apply str_in_occurs; exact H.
Qed.

Lemma rule_matches_not_triggered (command : string) (r : Rule) :
  rule_matches command r = false <-> ~ triggered command r.
Proof.
  rewrite <- rule_matches_triggered.
  destruct (rule_matches command r); split; congruence.
Qed.

(** The default action, step by step. *)
Lemma act_default_unfold (command : string) (w : World) :
  act_default command w =
    (if available (w_ai w) then
       (speak msg_thinking ;;
        response <- ask command true ;;
        speak response ;; ret NextTurn) w
     else (speak (echo_reply command) ;; ret NextTurn) w).
Proof.
  unfold act_default, is_available, bind, get_ai, ret.
  destruct (available (w_ai w)); [|reflexivity].
  destruct (speak msg_thinking w) as [[[]|e] w2]; [|reflexivity].
  destruct (ask command true w2) as [[response|e] w3]; reflexivity.
Qed.

Lemma speak_then_world {A : Type} (text : string) (x : A) (w : World) :
  snd ((speak text ;; ret x) w) = after (Speak text) w.
Proof.
  unfold bind, ret. rewrite speak_spec.
  destruct (tts env (w_tick w)) as [[]|[]]; reflexivity.
Qed.

(** C1. For a non-empty utterance the turn executes the action that
    first-match selection over the intent table picks: when some rule
    has a trigger occurring in the utterance, the action of the matching
    rule of lowest index, and of no other; when none has, the default
    action, which delegates to the AI when it is available and echoes
    the utterance when it is not. *)
Theorem first_match_wins (w : World) (command : string) (w1 : World) :
  listen 10 w = (Ok command, w1) ->
  command <> "" ->
  turn_body w = select intent_table command command w1 /\
  ((exists r, In r intent_table /\ triggered command r) ->
   exists i r, nth_error intent_table i = Some r /\ triggered command r /\
     (forall j r', (j < i)%nat -> nth_error intent_table j = Some r' ->
                   ~ triggered command r') /\
     select intent_table command = action r) /\
  ((forall r, In r intent_table -> ~ triggered command r) ->
   select intent_table command = act_default) /\
  act_default command w1 =
    (if available (w_ai w1) then
       (speak msg_thinking ;;
        response <- ask command true ;;
        speak response ;; ret NextTurn) w1
     else (speak (echo_reply command) ;; ret NextTurn) w1).
Proof.
  intros Hlisten Hne. repeat split.
  - unfold turn_body, bind. rewrite Hlisten.
    destruct command; [congruence|]. cbn [str_falsy].
    apply (f_equal (fun f => f w1)), dispatch_select.
  - intros [r [Hin Htrig]]. unfold select.
    destruct (find (rule_matches command) intent_table) as [r0|] eqn:Hfind.
    + destruct (find_lowest _ _ _ Hfind) as [i [Hi [Hm Hlow]]].
      exists i, r0. repeat split; auto.
      * apply rule_matches_triggered, Hm.
      * intros j r' Hj Hnth. apply rule_matches_not_triggered. eauto.
    + apply rule_matches_triggered in Htrig.
      pose proof (find_none _ _ Hfind r Hin) as Hno. cbn in Hno. congruence.
  - intros Hnone. unfold select.
    destruct (find (rule_matches command) intent_table) as [r0|] eqn:Hfind;
      [|reflexivity].
    apply find_some in Hfind as [Hin Hm].
    apply rule_matches_triggered in Hm. destruct (Hnone r0 Hin Hm).
  - apply act_default_unfold.
Qed.

(** ** The bounded history *)

Lemma keep_last_length {A : Type} (k : nat) (l : list A) :
  length (keep_last k l) = Nat.min k (length l).
Proof. unfold keep_last. rewrite length_skipn. lia. Qed.

Lemma keep_last_short {A : Type} (k : nat) (l : list A) :
  (length l <= k)%nat -> keep_last k l = l.
Proof.
  intros H. unfold keep_last.
  replace (length l - k)%nat with 0%nat by lia. reflexivity.
Qed.

Lemma keep_last_app_long {A : Type} (k : nat) (l x : list A) :
  (k <= length x)%nat -> keep_last k (l ++ x) = keep_last k x.
Proof.
  intros H. unfold keep_last.
  rewrite length_app, skipn_app.
  rewrite (skipn_all2 l) by lia. cbn [app].
  f_equal. lia.
Qed.

Lemma keep_last_app_keep {A : Type} (k : nat) (l x : list A) :
  keep_last k (keep_last k l ++ x) = keep_last k (l ++ x).
Proof.
  unfold keep_last at 1 3.
  rewrite !length_app, keep_last_length, !skipn_app, keep_last_length.
  unfold keep_last. rewrite skipn_skipn.
  f_equal; f_equal; lia.
Qed.

Lemma slice_from_keep_last {A : Type} (m : Z) (l : list A) :
  1 <= m -> slice_from ((- m) * 2) l = keep_last (Z.to_nat (2 * m)) l.
Proof.
  intros Hm. unfold slice_from, keep_last.
  destruct (Z.ltb_spec ((- m) * 2) 0) as [_|H]; [|lia].
  f_equal. lia.
Qed.

Lemma cap_history_fields (self : OllamaHandler) :
  model (cap_history self) = model self /\
  max_history (cap_history self) = max_history self /\
  system_prompt (cap_history self) = system_prompt self /\
  available (cap_history self) = available self.
Proof.
  unfold cap_history.
  destruct (Z.of_nat (length (conversation_history self)) >? max_history self * 2);
    repeat split.
Qed.

Lemma cap_history_keep_last (self : OllamaHandler) :
  1 <= max_history self ->
  conversation_history (cap_history self) =
  keep_last (cap self) (conversation_history self).
Proof.
  intros Hm. unfold cap_history, cap.
  destruct (Z.gtb_spec (Z.of_nat (length (conversation_history self)))
                       (max_history self * 2)) as [H|H].
  - cbn. apply slice_from_keep_last, Hm.
  - symmetry. apply keep_last_short. lia.
Qed.

Lemma record_exchange_history (self : OllamaHandler) (sent response : string) :
  1 <= max_history self ->
  conversation_history (record_exchange self sent response) =
  keep_last (cap self)
    (conversation_history self
       ++ [mkMessage "user" sent; mkMessage "assistant" response]).
Proof.
  intros Hm. unfold record_exchange.
  rewrite cap_history_keep_last by exact Hm. reflexivity.
Qed.

Lemma record_exchange_fields (self : OllamaHandler) (sent response : string) :
  max_history (record_exchange self sent response) = max_history self /\
  available (record_exchange self sent response) = available self /\
  cap (record_exchange self sent response) = cap self.
Proof.
  unfold record_exchange, cap.
  destruct (cap_history_fields
    (set_conversation_history
       (conversation_history self
          ++ [mkMessage "user" sent; mkMessage "assistant" response]) self))
    as [_ [Hm [_ Ha]]].
  rewrite Hm, Ha. repeat split.
Qed.

(** One call on an available handler: the call count advances by one,
    and the history takes in the exchange the call completed, if any. *)
Lemma ask_available_step (q : string) (w : World) (r : Result string) (w' : World) :
  1 <= max_history (w_ai w) ->
  available (w_ai w) = true ->
  ask q true w = (r, w') ->
  w_tick w' = S (w_tick w) /\
  available (w_ai w') = true /\
  max_history (w_ai w') = max_history (w_ai w) /\
  conversation_history (w_ai w') =
    match exchange_at (w_tick w) q with
    | [] => conversation_history (w_ai w)
    | E => keep_last (cap (w_ai w)) (conversation_history (w_ai w) ++ E)
    end.
Proof.
  intros Hm Hav. rewrite ask_spec, Hav. cbn [negb]. cbv zeta.
  unfold exchange_at.
  destruct (proc env (w_tick w)) as [result|e].
  - destruct (returncode result =? 0).
    + intros [= <- <-]. cbn [w_ai w_tick].
      destruct (record_exchange_fields (w_ai w) (q ++ brief_suffix)
                  (str_strip (stdout result))) as [Hmx [Ha _]].
      rewrite Hmx, Ha, record_exchange_history by exact Hm.
      repeat split; auto.
    + intros [= <- <-]. repeat split; auto.
  - destruct e; intros [= <- <-]; repeat split; auto.
Qed.

Lemma ask_each_history (questions : list string) :
  forall (w : World) (rs : list string) (w' : World),
  1 <= max_history (w_ai w) ->
  available (w_ai w) = true ->
  ask_each questions w = (Ok rs, w') ->
  max_history (w_ai w') = max_history (w_ai w) /\
  conversation_history (w_ai w') =
    match exchanges_from (w_tick w) questions with
    | [] => conversation_history (w_ai w)
    | E => keep_last (cap (w_ai w)) (conversation_history (w_ai w) ++ E)
    end.
Proof.
  induction questions as [|q rest IH]; intros w rs w' Hm Hav.
  - cbn. intros [= <- <-]. split; reflexivity.
  - cbn [ask_each exchanges_from]. unfold bind at 1.
    destruct (ask q true w) as [[r|e] w1] eqn:Hask; [|discriminate].
    destruct (ask_available_step _ _ _ _ Hm Hav Hask) as [Ht [Hav1 [Hm1 Hh1]]].
    unfold bind at 1.
    destruct (ask_each rest w1) as [[rs1|e] w2] eqn:Hrest; [|discriminate].
    unfold ret. intros [= <- <-].
    assert (Hm1' : 1 <= max_history (w_ai w1)) by lia.
    destruct (IH w1 rs1 w2 Hm1' Hav1 Hrest) as [Hm2 Hh2].
    split; [congruence|].
    rewrite Hh2, Ht, Hh1.
    assert (Hcap : cap (w_ai w1) = cap (w_ai w)) by (unfold cap; congruence).
    rewrite Hcap.
    destruct (exchange_at (w_tick w) q) as [|m1 E1];
      destruct (exchanges_from (S (w_tick w)) rest) as [|m2 E2]; cbn [app].
    + reflexivity.
    + reflexivity.
    + rewrite app_nil_r. reflexivity.
    + rewrite keep_last_app_keep, <- app_assoc. reflexivity.
Qed.

Lemma ask_history_step (q : string) (brief : bool) (w : World)
      (r : Result string) (w' : World) :
  ask q brief w = (r, w') ->
  w_ai w' = w_ai w \/
  (exists result, available (w_ai w) = true /\
     proc env (w_tick w) = Ok result /\ returncode result = 0 /\
     r = Ok (str_strip (stdout result)) /\
     w_ai w' = record_exchange (w_ai w) (sent_text q brief)
                 (str_strip (stdout result))).
Proof.
  rewrite ask_spec. cbv zeta.
  destruct (available (w_ai w)); cbn [negb].
  - destruct (proc env (w_tick w)) as [result|e].
    + destruct (Z.eqb_spec (returncode result) 0) as [Hrc|Hrc].
      * intros [= <- <-]. right. exists result. repeat split; auto.
      * intros [= <- <-]. left. reflexivity.
    + destruct e; intros [= <- <-]; left; reflexivity.
  - intros [= <- <-]. left. reflexivity.
Qed.

Lemma check_ollama_keeps (w : World) :
  conversation_history (w_ai (snd (_check_ollama w))) = conversation_history (w_ai w) /\
  max_history (w_ai (snd (_check_ollama w))) = max_history (w_ai w).
Proof.
  unfold _check_ollama, try_except, bind, subprocess_run, external, get_ai.
  destruct (proc env (w_tick w)) as [r1|e1].
  - destruct (returncode r1 =? 0); cbn.
    + destruct (proc env (S (w_tick w))) as [r2|e2]; cbn.
      * destruct (str_in (model (w_ai w)) (stdout r2)); cbn; eauto.
      * destruct e2; cbn; eauto.
    + eauto.
  - destruct e1; cbn; eauto.
Qed.

(** What a call to [ask] does to the handler, by outcome. *)
Lemma ask_outcome (q : string) (brief : bool) (w : World)
      (r : Result string) (w' : World) :
  ask q brief w = (r, w') ->
  (forall result,
     available (w_ai w) = true ->
     proc env (w_tick w) = Ok result -> returncode result = 0 ->
     r = Ok (str_strip (stdout result)) /\
     w_ai w' = record_exchange (w_ai w) (sent_text q brief)
                 (str_strip (stdout result))) /\
  ((available (w_ai w) = false \/
    (exists result, proc env (w_tick w) = Ok result /\ returncode result <> 0) \/
    (exists e, proc env (w_tick w) = Raise e)) ->
   w_ai w' = w_ai w).
Proof.
  intros Hask. split.
  - intros result Hav Hproc Hrc.
    rewrite ask_spec, Hav, Hproc, Hrc in Hask. cbn [negb Z.eqb] in Hask.
    cbv zeta in Hask. injection Hask as <- <-. split; reflexivity.
  - destruct (ask_history_step _ _ _ _ _ Hask)
      as [Hsame|[result [Hav [Hproc [Hrc _]]]]]; [auto|].
    intros [H|[[result' [H1 H2]]|[e H]]]; congruence.
Qed.

(** C2, as amended.  With [max_history] at least 1, a call to [ask]
    keeps [max_history]; when the model process completed with status 0
    it leaves the last [2 * max_history] entries of the history extended
    by the exchange, so at most [2 * max_history] of them; on any other
    outcome it leaves the history as it was; so a history within the
    cap stays within it.  Asked question after question, an available
    handler whose history was within the cap keeps it there, and once
    the successful exchanges have left [2 * max_history] messages or
    more the history holds exactly [2 * max_history] entries, the last
    ones of those exchanges in order, the oldest gone first.  A new
    handler starts with an empty history and [max_history = 2]. *)
Theorem history_cap_fifo (w : World) :
  1 <= max_history (w_ai w) ->
  (forall q brief r w', ask q brief w = (r, w') ->
     max_history (w_ai w') = max_history (w_ai w) /\
     (forall result,
        available (w_ai w) = true ->
        proc env (w_tick w) = Ok result -> returncode result = 0 ->
        r = Ok (str_strip (stdout result)) /\
        conversation_history (w_ai w')
          = keep_last (cap (w_ai w))
              (conversation_history (w_ai w)
                 ++ [mkMessage "user" (sent_text q brief);
                     mkMessage "assistant" (str_strip (stdout result))]) /\
        Z.of_nat (length (conversation_history (w_ai w')))
          <= 2 * max_history (w_ai w')) /\
     ((available (w_ai w) = false \/
       (exists result,
          proc env (w_tick w) = Ok result /\ returncode result <> 0) \/
       (exists e, proc env (w_tick w) = Raise e)) ->
      conversation_history (w_ai w') = conversation_history (w_ai w)) /\
     (conversation_history (w_ai w') = conversation_history (w_ai w) \/
      Z.of_nat (length (conversation_history (w_ai w')))
        <= 2 * max_history (w_ai w')) /\
     (Z.of_nat (length (conversation_history (w_ai w)))
        <= 2 * max_history (w_ai w) ->
      Z.of_nat (length (conversation_history (w_ai w')))
        <= 2 * max_history (w_ai w'))) /\
  (available (w_ai w) = true ->
   forall questions rs w', ask_each questions w = (Ok rs, w') ->
     (Z.of_nat (length (conversation_history (w_ai w)))
        <= 2 * max_history (w_ai w) ->
      Z.of_nat (length (conversation_history (w_ai w')))
        <= 2 * max_history (w_ai w')) /\
     (2 * max_history (w_ai w)
        <= Z.of_nat (length (exchanges_from (w_tick w) questions)) ->
      Z.of_nat (length (conversation_history (w_ai w')))
        = 2 * max_history (w_ai w') /\
      conversation_history (w_ai w')
        = keep_last (cap (w_ai w)) (exchanges_from (w_tick w) questions))) /\
  (forall mdl w0, snd (OllamaHandler_init mdl w) = w0 ->
     conversation_history (w_ai w0) = [] /\ max_history (w_ai w0) = 2).
Proof.
  intros Hm. split; [|split].
  - intros q brief r w' Hask.
    destruct (ask_outcome _ _ _ _ _ Hask) as [Hsuccess Hfailure].
    assert (Hbound : forall sent response,
      Z.of_nat (length (conversation_history
                          (record_exchange (w_ai w) sent response)))
      <= 2 * max_history (w_ai w)).
    { intros sent response. rewrite record_exchange_history by exact Hm.
      rewrite keep_last_length. unfold cap. lia. }
    assert (Hmax : max_history (w_ai w') = max_history (w_ai w)).
    { destruct (ask_history_step _ _ _ _ _ Hask)
        as [Hsame|[result [_ [_ [_ [_ Hrec]]]]]]; [congruence|].
      rewrite Hrec.
      apply (record_exchange_fields (w_ai w) (sent_text q brief)
               (str_strip (stdout result))). }
    split; [exact Hmax|]. rewrite Hmax. split; [|split; [|split]].
    + intros result Hav Hproc Hrc.
      destruct (Hsuccess result Hav Hproc Hrc) as [Hr Hrec].
      rewrite Hrec. split; [exact Hr|]. split; [|apply Hbound].
      apply record_exchange_history, Hm.
    + intros Hfail. rewrite (Hfailure Hfail). reflexivity.
    + destruct (ask_history_step _ _ _ _ _ Hask)
        as [Hsame|[result [_ [_ [_ [_ Hrec]]]]]].
      * left. rewrite Hsame. reflexivity.
      * right. rewrite Hrec. apply Hbound.
    + intros Hwithin.
      destruct (ask_history_step _ _ _ _ _ Hask)
        as [Hsame|[result [_ [_ [_ [_ Hrec]]]]]].
      * rewrite Hsame. exact Hwithin.
      * rewrite Hrec. apply Hbound.
  - intros Hav questions rs w' Hrun.
    destruct (ask_each_history _ _ _ _ Hm Hav Hrun) as [Hmx Hh].
    rewrite Hmx, Hh. unfold cap.
    destruct (exchanges_from (w_tick w) questions) as [|m1 E] eqn:HE.
    + split; [auto | cbn [length]; lia].
    + split.
      * intros _. rewrite keep_last_length. lia.
      * intros Hlong. rewrite keep_last_app_long by lia.
        split; [|reflexivity].
        rewrite keep_last_length. lia.
  - intros mdl w0 <-. unfold OllamaHandler_init, bind, modify_ai.
    destruct (check_ollama_keeps
      (mkWorld (mkHandler mdl [] 2 the_system_prompt false) (w_tick w) (w_log w)))
      as [Hh Hmx].
    cbn in Hh, Hmx. split; assumption.
Qed.

(** ** How a turn can end *)

Lemma load_global_updater {A : Type} (k : unit -> M A) (w : World) :
  (u <- load_global "updater" ;; k u) w = (Raise (NameError "updater"), w).
Proof. reflexivity. Qed.

(** Runs a chain of binds by cases on each step's outcome. *)
Ltac run_binds :=
  unfold bind, ret;
  repeat match goal with
         | |- context [match ?c ?w with (_, _) => _ end] =>
             destruct (c w) as [[?|?] ?]
         | |- context [if ?b then _ else _] => destruct b
         end.

Lemma then_next_turn {A : Type} (c : M A) (w : World) (x : LoopCtl) (w' : World) :
  (c ;; ret NextTurn) w = (Ok x, w') -> x = NextTurn.
Proof. run_binds; congruence. Qed.

Lemma act_check_updates_raises (command : string) (w : World) :
  act_check_updates command w =
  (speak "Checking for updates..." ;; raise (NameError "updater")) w.
Proof.
  unfold act_check_updates, bind, raise.
  destruct (speak "Checking for updates..." w) as [[[]|e] w1]; reflexivity.
Qed.

Lemma act_update_raises (command : string) (w : World) :
  act_update command w =
  (speak "Starting update process. Creating backup..." ;;
   raise (NameError "updater")) w.
Proof.
  unfold act_update, bind, raise.
  destruct (speak "Starting update process. Creating backup..." w)
    as [[[]|e] w1]; reflexivity.
Qed.

Lemma act_version_raises (command : string) (w : World) :
  act_version command w = (Raise (NameError "updater"), w).
Proof. reflexivity. Qed.

Lemma then_raise_not_ok {A B : Type} (c : M A) (e : exn) (w : World)
      (x : B) (w' : World) :
  (c ;; raise e) w <> (Ok x, w').
Proof. unfold bind, raise. destruct (c w) as [[?|?] ?]; congruence. Qed.

(** Only the exit rule's action breaks the loop. *)
Lemma dispatch_break (command : string) (w w' : World) :
  dispatch command w = (Ok BreakLoop, w') ->
  fires command rule_exit /\ act_exit command w = (Ok BreakLoop, w').
Proof.
  unfold fires, dispatch. unfold_table.
  chain_cases;
    try (intros H; split; [reflexivity | exact H]);
    try (intros H; apply then_next_turn in H; discriminate).
  - unfold act_time. run_binds; congruence.
  - unfold act_date. run_binds; congruence.
  - rewrite act_check_updates_raises. intros H. destruct (then_raise_not_ok _ _ _ _ _ H).
  - rewrite act_update_raises. intros H. destruct (then_raise_not_ok _ _ _ _ _ H).
  - rewrite act_version_raises. discriminate.
Qed.

Lemma str_falsy_false (s : string) : str_falsy s = false <-> s <> "".
Proof. destruct s; cbn; split; congruence. Qed.

(** A turn that breaks the loop does so through the exit rule or on a
    keyboard interrupt. *)
Lemma turn_break (w w' : World) :
  turn w = (Ok BreakLoop, w') ->
  exit_intent_turn w w' \/ interrupted_turn w w'.
Proof.
  unfold turn, guarded, try_except.
  destruct (turn_body w) as [[c|e] w1] eqn:Hbody.
  - intros [= -> ->]. left.
    unfold turn_body, bind in Hbody.
    destruct (listen 10 w) as [[command|e] w0] eqn:Hlisten; [|discriminate].
    destruct (str_falsy command) eqn:Hempty; [discriminate|].
    apply dispatch_break in Hbody as [Hreach Hexit].
    exists command, w0. repeat split; auto.
    apply str_falsy_false, Hempty.
  - destruct e; cbn [find fst snd isinstance_KeyboardInterrupt isinstance_Exception].
    + intros H. right. left. exists w1. split; [exact Hbody | exact H].
    + intros H. apply then_next_turn in H. discriminate.
    + intros H. apply then_next_turn in H. discriminate.
    + intros H. apply then_next_turn in H. discriminate.
Qed.

Lemma speak_then_raises {A : Type} (text : string) (x : A) (w : World)
      (e : exn) (w' : World) :
  (speak text ;; ret x) w = (Raise e, w') -> e = KeyboardInterrupt.
Proof.
  unfold bind, ret. rewrite speak_spec.
  destruct (tts env (w_tick w)) as [[]|[]]; congruence.
Qed.

(** Whatever escapes a turn is a keyboard interrupt. *)
Lemma turn_raise (w : World) (e : exn) (w' : World) :
  turn w = (Raise e, w') -> e = KeyboardInterrupt.
Proof.
  unfold turn, guarded, try_except.
  destruct (turn_body w) as [[c|e0] w1]; [discriminate|].
  destruct e0; cbn [find fst snd isinstance_KeyboardInterrupt isinstance_Exception];
    apply speak_then_raises.
Qed.

(** The loop ends only in a turn of one of the two kinds. *)
Lemma loop_end_cause (fuel : nat) :
  forall (w : World) (r : Result LoopEnd) (w' : World),
  main_loop fuel w = (r, w') ->
  r <> Ok StillLooping ->
  exists k w0, (k < fuel)%nat /\
    main_loop k w = (Ok StillLooping, w0) /\
    (exit_intent_turn w0 w' \/ interrupted_turn w0 w') /\
    (r = Ok Broke \/ r = Raise KeyboardInterrupt).
Proof.
  unfold main_loop.
  induction fuel as [|fuel IH]; intros w r w'; cbn [loop].
  - unfold ret. intros [= <- <-] H. congruence.
  - unfold bind at 1.
    destruct (turn w) as [[[|]|e] w1] eqn:Hturn.
    + intros Hrest Hr.
      destruct (IH _ _ _ Hrest Hr) as [k [w0 [Hk [Hrun [Hcause Hres]]]]].
      exists (S k), w0. repeat split; auto; [lia|].
      cbn [loop]. unfold bind at 1. rewrite Hturn. exact Hrun.
    + unfold ret. intros [= <- <-] _.
      exists 0%nat, w. repeat split; auto; [lia|].
      apply turn_break, Hturn.
    + intros [= <- <-] _.
      pose proof (turn_raise _ _ _ Hturn) as ->.
      exists 0%nat, w. repeat split; auto; [lia|].
      right. right. exact Hturn.
Qed.

(** C3. [main] stops running only in one of three ways: the start-up
    raised (an [Exception]: exit code 1; a keyboard interrupt: killed);
    or the loop, after some turns that all continued, met a turn that
    the exit rule ended, or one in which a keyboard interrupt was
    raised.  No other outcome of a turn, whatever the actions, the
    model process or the updater methods do, ends the loop. *)
Theorem loop_ends_only_by_exit_or_interrupt
        (fuel : nat) (w : World) (s : Status) (w' : World) :
  main fuel w = (s, w') ->
  s <> Running ->
  (exists e, startup w = (Raise e, w') /\
     ((isinstance_Exception e = true /\ s = Exited 1) \/
      (e = KeyboardInterrupt /\ s = Killed KeyboardInterrupt)))
  \/
  (exists w_ready k w0,
     startup w = (Ok tt, w_ready) /\ (k < fuel)%nat /\
     main_loop k w_ready = (Ok StillLooping, w0) /\
     (exit_intent_turn w0 w' \/ interrupted_turn w0 w') /\
     (s = Exited 0 \/ s = Killed KeyboardInterrupt)).
Proof.
  unfold main, bind.
  destruct (startup w) as [[[]|e] w1] eqn:Hstart.
  - destruct (main_loop fuel w1) as [r w2] eqn:Hloop.
    intros Hs Hrun. right.
    assert (Hr : r <> Ok StillLooping).
    { intros ->. injection Hs as <- <-. congruence. }
    destruct (loop_end_cause _ _ _ _ Hloop Hr) as [k [w0 [Hk [Hk0 [Hcause Hres]]]]].
    exists w1, k, w0.
    destruct Hres as [-> | ->]; injection Hs as <- <-; repeat split; auto.
  - intros Hs _. left. exists e.
    destruct e; cbn in Hs; injection Hs as <- <-; split; auto.
Qed.

(** ** Errors in a turn *)


(** ** What [ask] returns and records *)

Lemma failure_texts_distinct :
  NoDup [msg_unavailable; msg_trouble; msg_timeout; msg_went_wrong].
Proof.
  repeat constructor; cbn [In]; intuition discriminate.
Qed.

(** C5. [ask] returns a string whatever the input and the outcome of
    the model process, short of a keyboard interrupt: the fixed text of
    the failure met (handler unavailable, non-zero exit status, timeout,
    any other [Exception]), else the stripped output; and the four
    failure texts differ from one another. *)
Theorem ask_always_answers (user_message : string) (brief : bool) (w : World) :
  (available (w_ai w) = true ->
   proc env (w_tick w) <> Raise KeyboardInterrupt) ->
  (exists s w', ask user_message brief w = (Ok s, w') /\
     if available (w_ai w) then
       match proc env (w_tick w) with
       | Ok result =>
           if returncode result =? 0 then s = str_strip (stdout result)
           else s = msg_trouble
       | Raise TimeoutExpired => s = msg_timeout
       | Raise _ => s = msg_went_wrong
       end
     else s = msg_unavailable) /\
  NoDup [msg_unavailable; msg_trouble; msg_timeout; msg_went_wrong].
Proof.
  intros Hno. split; [|exact failure_texts_distinct].
  rewrite ask_spec. cbv zeta.
  destruct (available (w_ai w)); cbn [negb]; [|eauto].
  specialize (Hno eq_refl).
  destruct (proc env (w_tick w)) as [result|[]]; try congruence; eauto.
  destruct (returncode result =? 0); eauto.
Qed.

(** C9. A call to [ask] that ends on a failure path (handler
    unavailable, non-zero exit status, or any exception of the model
    process) leaves the handler, its history included, as it was; the
    handler changes only when the process completed with status 0, and
    then by the recorded exchange. *)
Theorem ask_failure_keeps_history
        (user_message : string) (brief : bool) (w : World)
        (r : Result string) (w' : World) :
  ask user_message brief w = (r, w') ->
  ((available (w_ai w) = false \/
    (exists result, proc env (w_tick w) = Ok result /\ returncode result <> 0) \/
    (exists e, proc env (w_tick w) = Raise e)) ->
   w_ai w' = w_ai w) /\
  (w_ai w' <> w_ai w ->
   exists result,
     available (w_ai w) = true /\
     proc env (w_tick w) = Ok result /\ returncode result = 0 /\
     r = Ok (str_strip (stdout result)) /\
     w_ai w' = record_exchange (w_ai w) (sent_text user_message brief)
                 (str_strip (stdout result))).
Proof.
  intros Hask.
  destruct (ask_history_step _ _ _ _ _ Hask)
    as [Hsame|[result [Hav [Hproc [Hrc [Hr Hrec]]]]]].
  - split; [auto | congruence].
  - split.
    + intros [H|[[result' [H1 H2]]|[e H]]]; congruence.
    + intros _. exists result. auto.
Qed.

Lemma fires_action (command : string) (r : Rule) :
  fires command r -> dispatch command = action r command.
Proof.
  unfold fires. intros H. rewrite dispatch_select. unfold select.
  rewrite H. reflexivity.
Qed.

Lemma fires_triggered (command : string) (r : Rule) :
  fires command r -> triggered command r.
Proof.
  unfold fires. intros H. apply find_some in H as [_ H].
  apply rule_matches_triggered, H.
Qed.

(** ** The stateful intents *)

(** C7. When the clear-history intent fires: with the handler
    available, the history is empty afterwards and the one reply spoken
    is the confirmation; with it unavailable, the handler is as before
    and the one reply spoken says that the AI is not available. *)
Theorem clear_history_intent (command : string) (w : World) :
  fires command rule_clear_history ->
  if available (w_ai w) then
    conversation_history (w_ai (snd (dispatch command w))) = [] /\
    w_log (snd (dispatch command w)) = (w_log w ++ [Speak msg_history_cleared])%list
  else
    w_ai (snd (dispatch command w)) = w_ai w /\
    w_log (snd (dispatch command w)) = (w_log w ++ [Speak msg_ai_unavailable])%list.
Proof.
  intros Hfires. rewrite (fires_action _ _ Hfires).
  cbn [action rule_clear_history].
  unfold act_clear_history, is_available, bind, get_ai, ret.
  destruct (available (w_ai w)).
  - unfold clear_history, modify_ai. rewrite speak_spec. cbn [w_tick].
    destruct (tts env (w_tick w)) as [[]|[]]; split; reflexivity.
  - rewrite speak_spec.
    destruct (tts env (w_tick w)) as [[]|[]]; split; reflexivity.
Qed.

(** C8. When the check-for-updates, the update or the version intent
    fires, the action raises [NameError] on the name [updater] where it
    first reads it: after the announcement for the first two, at once
    for the third.  So the action never returns, whatever the methods of
    an updater would do, and the handler is left as it was. *)
Theorem updater_intents_fail (command : string) (r : Rule) (w : World) :
  fires command r ->
  In r [rule_check_updates; rule_update; rule_version] ->
  (r = rule_check_updates ->
   dispatch command w =
   (speak "Checking for updates..." ;; raise (NameError "updater")) w) /\
  (r = rule_update ->
   dispatch command w =
   (speak "Starting update process. Creating backup..." ;;
    raise (NameError "updater")) w) /\
  (r = rule_version ->
   dispatch command w = (Raise (NameError "updater"), w)) /\
  exists e w',
    dispatch command w = (Raise e, w') /\
    (e = NameError "updater" \/
     (e = KeyboardInterrupt /\ tts env (w_tick w) = Raise KeyboardInterrupt)) /\
    w_ai w' = w_ai w.
Proof.
  intros Hfires Hin. rewrite (fires_action _ _ Hfires).
  repeat split.
  - intros ->. apply act_check_updates_raises.
  - intros ->. apply act_update_raises.
  - intros ->. apply act_version_raises.
  - destruct Hin as [<-|[<-|[<-|[]]]]; cbn [action rule_check_updates rule_update rule_version].
    + rewrite act_check_updates_raises. unfold bind, raise. rewrite speak_spec.
      destruct (tts env (w_tick w)) as [[]|[]]; eauto 8.
    + rewrite act_update_raises. unfold bind, raise. rewrite speak_spec.
      destruct (tts env (w_tick w)) as [[]|[]]; eauto 8.
    + rewrite act_version_raises. eauto 8.
Qed.

(** ** The brief reminder *)

Lemma append_assoc (a b c : string) : (a ++ b) ++ c = a ++ b ++ c.
Proof. induction a as [|x a IH]; cbn; congruence. Qed.

Lemma append_length (a b : string) :
  String.length (a ++ b) = (String.length a + String.length b)%nat.
Proof. induction a as [|x a IH]; cbn; congruence. Qed.

Lemma join_last_two (sep a b : string) (parts : list string) :
  exists pre, join sep (parts ++ [a; b]) = pre ++ a ++ sep ++ b.
Proof.
  induction parts as [|p parts [pre IH]].
  - exists "". reflexivity.
  - exists (p ++ sep ++ pre). cbn [app join].
    destruct (parts ++ [a; b])%list eqn:E.
    + destruct parts; discriminate.
    + rewrite IH, !append_assoc. reflexivity.
Qed.

Lemma format_ends_with_user (messages : list Message) (text : string) :
  exists pre,
    _format_messages (messages ++ [mkMessage "user" text]) =
    pre ++ "User: " ++ text ++ NL ++ NL ++ "Assistant:".
Proof.
  unfold _format_messages.
  rewrite flat_map_app. cbn [flat_map format_part role content String.eqb
                             Ascii.eqb Bool.eqb app].
  rewrite <- app_assoc. cbn [app].
  destruct (join_last_two NL ("User: " ++ text ++ NL) "Assistant:"
              (flat_map format_part messages)) as [pre H].
  exists pre. rewrite H, !append_assoc. reflexivity.
Qed.

(** C10. A call to [ask] with [brief = True] on an available handler
    runs the model on a prompt whose last message is the caller's text
    followed by the fixed reminder, a text other than the caller's; and
    when the process completes with status 0 the user entry appended to
    the history, followed by the assistant's, holds that same text. *)
Theorem brief_suffix_recorded_and_sent (user_message : string) (w : World) :
  available (w_ai w) = true ->
  let sent := user_message ++ brief_suffix in
  let prompt :=
    _format_messages
      ([mkMessage "system" (system_prompt (w_ai w))]
         ++ conversation_history (w_ai w)
         ++ [mkMessage "user" sent]) in
  brief_suffix =
    NL ++ NL ++ "(Keep response brief - 2-3 sentences for voice output)" /\
  sent <> user_message /\
  w_log (snd (ask user_message true w)) =
    (w_log w ++ [Run ["ollama"; "run"; model (w_ai w); prompt] 60])%list /\
  (exists pre, prompt = pre ++ "User: " ++ sent ++ NL ++ NL ++ "Assistant:") /\
  (forall result,
     proc env (w_tick w) = Ok result -> returncode result = 0 ->
     w_ai (snd (ask user_message true w)) =
     cap_history
       (set_conversation_history
          (conversation_history (w_ai w)
             ++ [mkMessage "user" sent;
                 mkMessage "assistant" (str_strip (stdout result))])
          (w_ai w))).
Proof.
  intros Hav sent prompt. repeat split.
  - intros H. apply (f_equal String.length) in H.
    unfold sent in H. rewrite append_length in H. cbn in H. lia.
  - rewrite ask_spec, Hav. cbn [negb]. cbv zeta.
    destruct (proc env (w_tick w)) as [result|[]]; try reflexivity.
    destruct (returncode result =? 0); reflexivity.
  - unfold prompt. rewrite app_assoc. apply format_ends_with_user.
  - intros result Hproc Hrc.
    rewrite ask_spec, Hav, Hproc, Hrc. reflexivity.
Qed.

(** C6, as amended.  For a command on which no rule has a trigger, with
    the handler available and no keyboard interrupt in the way, the
    action speaks ["Thinking..."], calls [ask] with the command, and
    speaks what [ask] returned: three external calls in that order.
    When the model process completed with status 0 the history has
    grown, before the cap step, by one user entry (the command with the
    reminder) and one assistant entry (the response); on any other
    outcome the handler is as it was. *)
Theorem default_delegates_to_ai (command : string) (w : World) :
  (forall r, In r intent_table -> ~ triggered command r) ->
  available (w_ai w) = true ->
  tts env (w_tick w) <> Raise KeyboardInterrupt ->
  proc env (S (w_tick w)) <> Raise KeyboardInterrupt ->
  exists response w1 w2,
    speak msg_thinking w = (Ok tt, w1) /\
    ask command true w1 = (Ok response, w2) /\
    dispatch command w = (speak response ;; ret NextTurn) w2 /\
    w_log (snd (dispatch command w)) =
      (w_log w ++ [Speak msg_thinking;
                   Run (ask_argv (w_ai w) command true) 60;
                   Speak response])%list /\
    w_ai (snd (dispatch command w)) =
      match proc env (S (w_tick w)) with
      | Ok result =>
          if returncode result =? 0 then
            cap_history
              (set_conversation_history
                 (conversation_history (w_ai w)
                    ++ [mkMessage "user" (command ++ brief_suffix);
                        mkMessage "assistant" response])
                 (w_ai w))
          else w_ai w
      | Raise _ => w_ai w
      end.
Proof.
  intros Hnone Hav Htts Hproc.
  assert (Hsel : dispatch command = act_default command).
  { rewrite dispatch_select. unfold select.
    destruct (find (rule_matches command) intent_table) as [r|] eqn:Hfind;
      [|reflexivity].
    apply find_some in Hfind as [Hin Hm].
    apply rule_matches_triggered in Hm. destruct (Hnone r Hin Hm). }
  assert (Hspeak : speak msg_thinking w = (Ok tt, after (Speak msg_thinking) w)).
  { rewrite speak_spec.
    destruct (tts env (w_tick w)) as [[]|[]]; try reflexivity; congruence. }
  assert (Hd : forall response w2,
             ask command true (after (Speak msg_thinking) w) = (Ok response, w2) ->
             dispatch command w = (speak response ;; ret NextTurn) w2).
  { intros response w2 H. rewrite Hsel, act_default_unfold, Hav.
    unfold bind at 1. rewrite Hspeak. unfold bind at 1. rewrite H.
    reflexivity. }
  pose proof (ask_spec command true (after (Speak msg_thinking) w)) as Hask.
  cbn [after w_ai w_tick w_log] in Hask. rewrite Hav in Hask.
  cbn [negb] in Hask. cbv zeta in Hask.
  destruct (ask command true (after (Speak msg_thinking) w))
    as [[response|e] w2] eqn:Hres.
  - exists response, (after (Speak msg_thinking) w), w2.
    rewrite (Hd _ _ eq_refl), speak_then_world.
    split; [exact Hspeak|]. split; [exact Hres|]. split; [reflexivity|].
    split.
    + destruct (proc env (S (w_tick w))) as [result|[]];
        [destruct (returncode result =? 0)| | | |];
        injection Hask as _ ->; cbn [after w_log];
        rewrite <- !app_assoc; reflexivity.
    + destruct (proc env (S (w_tick w))) as [result|[]];
        [destruct (returncode result =? 0)| | | |];
        injection Hask as Hr ->; try reflexivity.
      subst response. reflexivity.
  - destruct (proc env (S (w_tick w))) as [result|[]];
      [destruct (returncode result =? 0)| | | |]; congruence.
Qed.

(** * Further properties of the code *)

(** ** Availability *)

(** X1. [_check_ollama] never raises an [Exception]: whatever the two
    processes do, it returns, or passes on a keyboard interrupt.  When
    it returns, the handler is available exactly when [which ollama]
    exited with status 0 and the output of [ollama list] has the model
    name occurring in it; nothing else of the handler changes. *)
Theorem check_ollama_decides (w : World) :
  (fst (_check_ollama w) = Ok tt \/
   fst (_check_ollama w) = Raise KeyboardInterrupt) /\
  (fst (_check_ollama w) = Ok tt ->
   (available (w_ai (snd (_check_ollama w))) = true <->
    exists r1 r2,
      proc env (w_tick w) = Ok r1 /\ returncode r1 = 0 /\
      proc env (S (w_tick w)) = Ok r2 /\
      occurs (model (w_ai w)) (stdout r2))) /\
  model (w_ai (snd (_check_ollama w))) = model (w_ai w) /\
  conversation_history (w_ai (snd (_check_ollama w)))
    = conversation_history (w_ai w) /\
  max_history (w_ai (snd (_check_ollama w))) = max_history (w_ai w) /\
  system_prompt (w_ai (snd (_check_ollama w))) = system_prompt (w_ai w).
Proof.
  unfold _check_ollama, try_except, bind, subprocess_run, external, get_ai,
    modify_ai, occurs.
  destruct (proc env (w_tick w)) as [r1|e1] eqn:H1.
  - destruct (Z.eqb_spec (returncode r1) 0) as [Hrc|Hrc]; cbn.
    + destruct (proc env (S (w_tick w))) as [r2|e2] eqn:H2; cbn.
      * destruct (str_in (model (w_ai w)) (stdout r2)) eqn:Hin; cbn;
          repeat split; auto; try discriminate.
        -- intros _. exists r1, r2. repeat split; auto.
           apply str_in_occurs, Hin.
        -- intros [r1' [r2' [E1 [_ [E2 Hocc]]]]].
           injection E2 as <-. apply str_in_occurs in Hocc. congruence.
      * destruct e2; cbn; repeat split; auto; try discriminate;
          intros [r1' [r2' [_ [_ [E2 _]]]]]; discriminate.
    + repeat split; auto; try discriminate.
      intros [r1' [r2' [E1 [Hz _]]]]. injection E1 as <-. contradiction.
  - destruct e1; cbn; repeat split; auto; try discriminate;
      intros [r1' [r2' [E1 _]]]; discriminate.
Qed.

(** ** The prompt *)

Lemma str_concat_app (a b : list string) :
  str_concat (a ++ b) = str_concat a ++ str_concat b.
Proof.
  unfold str_concat. induction a as [|x a IH]; cbn; [reflexivity|].
  rewrite IH, append_assoc. reflexivity.
Qed.

Lemma join_trailing (sep last : string) (parts : list string) :
  join sep (parts ++ [last]) =
  str_concat (map (fun part => part ++ sep) parts) ++ last.
Proof.
  induction parts as [|p parts IH]; [reflexivity|].
  cbn [app map]. change (join sep (p :: (parts ++ [last])%list))
    with (match (parts ++ [last])%list with
          | [] => p
          | _ => p ++ sep ++ join sep (parts ++ [last])
          end).
  destruct (parts ++ [last])%list eqn:E.
  - destruct parts; discriminate.
  - rewrite IH. unfold str_concat. cbn [fold_right].
    rewrite !append_assoc. reflexivity.
Qed.

Lemma prompt_body_app (a b : list Message) :
  prompt_body (a ++ b) = prompt_body a ++ prompt_body b.
Proof. unfold prompt_body. rewrite map_app. apply str_concat_app. Qed.

Lemma format_messages_body (messages : list Message) :
  _format_messages messages = prompt_body messages ++ "Assistant:".
Proof.
  unfold _format_messages, prompt_body. rewrite join_trailing. f_equal.
  induction messages as [|m ms IH]; [reflexivity|].
  cbn [flat_map map]. rewrite map_app, str_concat_app, IH. reflexivity.
Qed.

Lemma append_nil_r (s : string) : s ++ "" = s.
Proof. induction s as [|c s IH]; cbn; congruence. Qed.

(** X2. The prompt is built message by message: each message of role
    system, user or assistant adds the block of its label, its content
    and a blank line, a message of any other role adds nothing, and the
    prompt ends with the open label of the assistant.  So the prompt of
    a longer conversation extends the blocks of a shorter one. *)
Theorem format_messages_blocks (before after_ : list Message) (msg : Message) :
  _format_messages [] = "Assistant:" /\
  _format_messages (before ++ after_)
    = prompt_body before ++ _format_messages after_ /\
  block msg =
    (if (role msg =? "system")%string
     then "System: " ++ content msg ++ NL ++ NL
     else if (role msg =? "user")%string
     then "User: " ++ content msg ++ NL ++ NL
     else if (role msg =? "assistant")%string
     then "Assistant: " ++ content msg ++ NL ++ NL
     else "") /\
  ((role msg =? "system")%string = false ->
   (role msg =? "user")%string = false ->
   (role msg =? "assistant")%string = false ->
   _format_messages (before ++ msg :: after_)
     = _format_messages (before ++ after_)).
Proof.
  assert (Hblock : block msg =
    (if (role msg =? "system")%string
     then "System: " ++ content msg ++ NL ++ NL
     else if (role msg =? "user")%string
     then "User: " ++ content msg ++ NL ++ NL
     else if (role msg =? "assistant")%string
     then "Assistant: " ++ content msg ++ NL ++ NL
     else "")).
  { unfold block, format_part.
    destruct (role msg =? "system")%string;
      [|destruct (role msg =? "user")%string;
        [|destruct (role msg =? "assistant")%string]];
      cbn [map str_concat fold_right]; rewrite ?append_nil_r, ?append_assoc;
      reflexivity. }
  repeat split.
  - rewrite !format_messages_body, prompt_body_app, append_assoc. reflexivity.
  - exact Hblock.
  - intros Hs Hu Ha.
    rewrite !format_messages_body.
    change (msg :: after_) with ([msg] ++ after_)%list.
    rewrite !prompt_body_app. f_equal. f_equal.
    unfold prompt_body at 1. cbn [map str_concat fold_right].
    rewrite Hblock, Hs, Hu, Ha. reflexivity.
Qed.

(** X3. The prompt does not tell a turn from a text that spells one: a
    user message whose text goes on, after a blank line, with the
    assistant's label gives the very prompt of the two genuine
    messages, and so for the user's label in an assistant message. *)
Theorem format_messages_ambiguous (before : list Message) (a b : string) :
  _format_messages
    (before ++ [mkMessage "user" (a ++ NL ++ NL ++ "Assistant: " ++ b)])
  = _format_messages
      (before ++ [mkMessage "user" a; mkMessage "assistant" b]) /\
  _format_messages
    (before ++ [mkMessage "assistant" (a ++ NL ++ NL ++ "User: " ++ b)])
  = _format_messages
      (before ++ [mkMessage "assistant" a; mkMessage "user" b]).
Proof.
  rewrite !format_messages_body, !prompt_body_app.
  unfold prompt_body, block, format_part.
  cbn [map str_concat fold_right role content String.eqb Ascii.eqb Bool.eqb].
  rewrite ?append_nil_r, ?append_assoc.
  split; reflexivity.
Qed.

(** ** The cap at and below zero *)

Lemma slice_from_nonpositive_cap {A : Type} (k : nat) (l : list A) :
  slice_from ((- (- Z.of_nat k)) * 2) l = skipn (2 * k) l.
Proof.
  unfold slice_from.
  destruct (Z.ltb_spec ((- (- Z.of_nat k)) * 2) 0) as [H|H]; [lia|].
  destruct (Nat.le_gt_cases (2 * k) (length l)) as [Hle|Hgt].
  - f_equal. lia.
  - rewrite !skipn_all2 by lia. reflexivity.
Qed.

Lemma ask_nonpositive_cap (user_message : string) (brief : bool) (w : World)
      (k : nat) (result : CompletedProcess) :
  available (w_ai w) = true ->
  max_history (w_ai w) = - Z.of_nat k ->
  proc env (w_tick w) = Ok result ->
  returncode result = 0 ->
  conversation_history (w_ai (snd (ask user_message brief w)))
  = skipn (2 * k)
      (conversation_history (w_ai w)
         ++ [mkMessage "user" (sent_text user_message brief);
             mkMessage "assistant" (str_strip (stdout result))]).
Proof.
  intros Hav Hmax Hproc Hrc.
  rewrite ask_spec, Hav, Hproc, Hrc. cbn [negb Z.eqb snd w_ai].
  unfold record_exchange, cap_history.
  cbn [conversation_history max_history set_conversation_history].
  rewrite Hmax, length_app. cbn [length].
  destruct (Z.gtb_spec
    (Z.of_nat (length (conversation_history (w_ai w)) + 2))
    (- Z.of_nat k * 2)) as [_|H]; [|lia].
  cbn [conversation_history set_conversation_history].
  apply slice_from_nonpositive_cap.
Qed.

(** X4. With [max_history] zero or negative, [-k], the cap step after an
    answered question is the slice from index [2 * k]: the oldest [2 * k]
    entries of the extended history go.  At zero nothing goes; below
    zero, a history short enough loses the exchange just recorded with
    all the rest. *)
Theorem nonpositive_cap_slices_from_front
        (user_message : string) (brief : bool) (w : World)
        (k : nat) (result : CompletedProcess) :
  available (w_ai w) = true ->
  max_history (w_ai w) = - Z.of_nat k ->
  proc env (w_tick w) = Ok result ->
  returncode result = 0 ->
  conversation_history (w_ai (snd (ask user_message brief w)))
  = skipn (2 * k)
      (conversation_history (w_ai w)
         ++ [mkMessage "user" (sent_text user_message brief);
             mkMessage "assistant" (str_strip (stdout result))]) /\
  (k = 0%nat ->
   length (conversation_history (w_ai (snd (ask user_message brief w))))
   = (length (conversation_history (w_ai w)) + 2)%nat) /\
  ((length (conversation_history (w_ai w)) + 2 <= 2 * k)%nat ->
   conversation_history (w_ai (snd (ask user_message brief w))) = []).
Proof.
  intros Hav Hmax Hproc Hrc.
  rewrite (ask_nonpositive_cap _ _ _ _ _ Hav Hmax Hproc Hrc). repeat split.
  - intros ->. cbn [Nat.mul Nat.add skipn]. rewrite length_app. reflexivity.
  - intros Hshort. apply skipn_all2. rewrite length_app. cbn [length]. lia.
Qed.

Lemma ask_zero_cap_step (q : string) (w : World) (r : Result string) (w' : World) :
  max_history (w_ai w) = 0 ->
  available (w_ai w) = true ->
  ask q true w = (r, w') ->
  w_tick w' = S (w_tick w) /\
  available (w_ai w') = true /\
  max_history (w_ai w') = 0 /\
  conversation_history (w_ai w') =
    (conversation_history (w_ai w) ++ exchange_at (w_tick w) q)%list.
Proof.
  intros Hm Hav Hask.
  pose proof (ask_nonpositive_cap q true w 0) as Hcap.
  pose proof Hask as Hspec.
  rewrite ask_spec, Hav in Hspec. cbn [negb] in Hspec. cbv zeta in Hspec.
  unfold exchange_at.
  destruct (proc env (w_tick w)) as [result|e] eqn:Hproc.
  - destruct (Z.eqb_spec (returncode result) 0) as [Hrc|Hrc].
    + pose proof (Hcap result Hav Hm eq_refl Hrc) as Hh.
      rewrite Hask in Hh. cbn [snd skipn Nat.mul Nat.add] in Hh.
      injection Hspec as _ Hw. subst w'. cbn [w_ai w_tick after] in *.
      destruct (record_exchange_fields (w_ai w) (q ++ brief_suffix)
                  (str_strip (stdout result))) as [Hmx [Ha _]].
      repeat split; auto; congruence.
    + injection Hspec as _ Hw. subst w'. rewrite app_nil_r.
      repeat split; auto.
  - rewrite app_nil_r.
    destruct e; injection Hspec as _ Hw; subst w'; repeat split; auto.
Qed.

(** X5. With [max_history] set to 0 nothing is ever evicted: asked
    question after question, an available handler keeps its whole
    history and every exchange completed since, in order. *)
Theorem zero_cap_keeps_everything (questions : list string) :
  forall (w : World) (rs : list string) (w' : World),
  max_history (w_ai w) = 0 ->
  available (w_ai w) = true ->
  ask_each questions w = (Ok rs, w') ->
  conversation_history (w_ai w')
  = (conversation_history (w_ai w) ++ exchanges_from (w_tick w) questions)%list.
Proof.
  induction questions as [|q rest IH]; intros w rs w' Hm Hav.
  - cbn. intros [= <- <-]. rewrite app_nil_r. reflexivity.
  - cbn [ask_each exchanges_from]. unfold bind at 1.
    destruct (ask q true w) as [[r|e] w1] eqn:Hask; [|discriminate].
    destruct (ask_zero_cap_step _ _ _ _ Hm Hav Hask) as [Ht [Hav1 [Hm1 Hh1]]].
    unfold bind at 1.
    destruct (ask_each rest w1) as [[rs1|e] w2] eqn:Hrest; [|discriminate].
    unfold ret. intros [= <- <-].
    rewrite (IH w1 rs1 w2 Hm1 Hav1 Hrest), Hh1, Ht, app_assoc. reflexivity.
Qed.

(** ** The shape of the history *)

Lemma paired_app (a b : list Message) :
  paired a = true -> paired b = true -> paired (a ++ b) = true.
Proof.
  revert b. induction a as [a IH] using (well_founded_induction
    (Wf_nat.well_founded_ltof _ (@length Message))).
  intros b Ha Hb. destruct a as [|u [|v rest]]; cbn in *; try discriminate.
  - exact Hb.
  - apply andb_true_iff in Ha as [Huv Hrest]. rewrite Huv. cbn.
    apply IH; auto. unfold Wf_nat.ltof. cbn. lia.
Qed.

Lemma paired_skipn (j : nat) :
  forall h, paired h = true -> paired (skipn (2 * j) h) = true.
Proof.
  induction j as [|j IH]; intros h Hp; [exact Hp|].
  replace (2 * S j)%nat with (S (S (2 * j))) by lia.
  destruct h as [|u [|v rest]]; cbn [skipn]; try reflexivity;
    try (cbn in Hp; discriminate).
  apply IH. cbn in Hp. apply andb_true_iff in Hp as [_ Hp]. exact Hp.
Qed.

Lemma paired_even (h : list Message) :
  paired h = true -> exists q, length h = (2 * q)%nat.
Proof.
  induction h as [h IH] using (well_founded_induction
    (Wf_nat.well_founded_ltof _ (@length Message))).
  intros Hp. destruct h as [|u [|v rest]]; cbn in Hp; try discriminate.
  - exists 0%nat. reflexivity.
  - apply andb_true_iff in Hp as [_ Hp].
    destruct (IH rest) as [q Hq]; auto.
    + unfold Wf_nat.ltof. cbn. lia.
    + exists (S q). cbn [length]. lia.
Qed.

Lemma slice_from_even {A : Type} (z : Z) (l : list A) (q : nat) :
  length l = (2 * q)%nat ->
  exists j, slice_from (z * 2) l = skipn (2 * j) l.
Proof.
  intros Hlen. unfold slice_from. rewrite Hlen.
  destruct (z * 2 <? 0).
  - exists (Z.to_nat (Z.max 0 (z + Z.of_nat q))). f_equal. lia.
  - exists (Z.to_nat (Z.min z (Z.of_nat q))). f_equal. lia.
Qed.

Lemma record_exchange_paired (self : OllamaHandler) (sent response : string) :
  paired (conversation_history self) = true ->
  paired (conversation_history (record_exchange self sent response)) = true.
Proof.
  intros Hp.
  assert (Hext : paired (conversation_history self
                   ++ [mkMessage "user" sent; mkMessage "assistant" response])%list
                 = true) by (apply paired_app; [exact Hp | reflexivity]).
  unfold record_exchange, cap_history.
  cbn [conversation_history max_history set_conversation_history].
  destruct (_ >? _); cbn [conversation_history set_conversation_history];
    [|exact Hext].
  destruct (paired_even _ Hext) as [q Hq].
  destruct (slice_from_even (- max_history self) _ q Hq) as [j Hj].
  rewrite Hj. apply paired_skipn, Hext.
Qed.

(** X6. Whatever [max_history] is, and however the call ends, [ask]
    keeps the history a sequence of pairs, a user message followed by
    the assistant's: the cap step only ever drops whole pairs. *)
Theorem ask_keeps_pairs (user_message : string) (brief : bool) (w : World) :
  paired (conversation_history (w_ai w)) = true ->
  paired (conversation_history (w_ai (snd (ask user_message brief w)))) = true.
Proof.
  intros Hp.
  destruct (ask user_message brief w) as [r w'] eqn:Hask.
  destruct (ask_history_step _ _ _ _ _ Hask) as [Hsame|[result [_ [_ [_ [_ Hrec]]]]]];
    cbn [snd].
  - rewrite Hsame. exact Hp.
  - rewrite Hrec. apply record_exchange_paired, Hp.
Qed.

(** ** What a computation leaves alone *)

Lemma ai_untouched_refl (w : World) : ai_untouched w w.
Proof. split; reflexivity. Qed.

Lemma ai_untouched_trans (a b c : World) :
  ai_untouched a b -> ai_untouched b c -> ai_untouched a c.
Proof.
  unfold ai_untouched, same_ai, no_new_run.
  intros [H1 H2] [H3 H4]. split; congruence.
Qed.

Lemma respects_ret {A : Type} (R : World -> World -> Prop) (x : A) :
  (forall w, R w w) -> respects R (ret x).
Proof. intros Hrefl w. apply Hrefl. Qed.

Lemma respects_raise {A : Type} (R : World -> World -> Prop) (e : exn) :
  (forall w, R w w) -> respects R (@raise A e).
Proof. intros Hrefl w. apply Hrefl. Qed.

Lemma respects_bind {A B : Type} (R : World -> World -> Prop)
      (c : M A) (k : A -> M B) :
  (forall a b c, R a b -> R b c -> R a c) ->
  respects R c -> (forall a, respects R (k a)) -> respects R (bind c k).
Proof.
  intros Htrans Hc Hk w. unfold bind. specialize (Hc w).
  destruct (c w) as [[a|e] w1]; cbn [snd] in *; [|exact Hc].
  apply Htrans with w1; [exact Hc | apply Hk].
Qed.

Lemma respects_try {A : Type} (R : World -> World -> Prop)
      (body : M A) (clauses : list (clause A)) :
  (forall a b c, R a b -> R b c -> R a c) ->
  respects R body ->
  (forall c e, In c clauses -> respects R (snd c e)) ->
  respects R (try_except body clauses).
Proof.
  intros Htrans Hbody Hcl w. unfold try_except. specialize (Hbody w).
  destruct (body w) as [[a|e] w1]; cbn [snd] in *; [exact Hbody|].
  destruct (find (fun c => fst c e) clauses) as [c|] eqn:Hfind; [|exact Hbody].
  apply find_some in Hfind as [Hin _].
  apply Htrans with w1; [exact Hbody | apply Hcl, Hin].
Qed.

Lemma external_untouched {A : Type} (ev : Event) (oracle : nat -> Result A) :
  is_run ev = false -> respects ai_untouched (external ev oracle).
Proof.
  intros Hev w. unfold external, ai_untouched, same_ai, no_new_run, after.
  cbn [snd w_ai w_log]. split; [reflexivity|].
  rewrite filter_app. cbn [filter]. rewrite Hev. apply app_nil_r.
Qed.

Lemma speak_untouched (text : string) : respects ai_untouched (speak text).
Proof.
  intros w. rewrite speak_spec. cbn [snd].
  apply (external_untouched (Speak text) (tts env) eq_refl w).
Qed.

Lemma listen_untouched (timeout : Z) : respects ai_untouched (listen timeout).
Proof.
  intros w. rewrite listen_spec. cbn [snd].
  apply (external_untouched (Listen timeout) (mic env) eq_refl w).
Qed.

(** Solves goals on chains of binds whose steps leave the AI alone. *)
Ltac untouched :=
  repeat first
    [ apply speak_untouched
    | apply listen_untouched
    | apply external_untouched; reflexivity
    | apply respects_ret; exact ai_untouched_refl
    | apply respects_raise; exact ai_untouched_refl
    | apply respects_bind; [exact ai_untouched_trans | | intros ?]
    | match goal with
      | |- respects _ (if ?b then _ else _) => destruct b
      end ].

Lemma canned_actions_untouched (command : string) :
  respects ai_untouched (act_wake command) /\
  respects ai_untouched (act_hello command) /\
  respects ai_untouched (act_time command) /\
  respects ai_untouched (act_date command) /\
  respects ai_untouched (act_status command) /\
  respects ai_untouched (act_thanks command) /\
  respects ai_untouched (act_exit command).
Proof.
  unfold act_wake, act_hello, act_time, act_date, act_status, act_thanks,
    act_exit, datetime_now.
  repeat apply conj; untouched.
Qed.

Lemma updater_actions_untouched (command : string) :
  respects ai_untouched (act_check_updates command) /\
  respects ai_untouched (act_update command) /\
  respects ai_untouched (act_version command).
Proof.
  repeat apply conj; intros w.
  - rewrite act_check_updates_raises. revert w. untouched.
  - rewrite act_update_raises. revert w. untouched.
  - rewrite act_version_raises. apply ai_untouched_refl.
Qed.

Lemma clear_action_no_run (command : string) :
  respects no_new_run (act_clear_history command).
Proof.
  intros w. unfold act_clear_history, is_available, bind, get_ai, ret,
    clear_history, modify_ai.
  destruct (available (w_ai w)); rewrite speak_spec;
    destruct (tts env _) as [[]|[]]; cbn [snd];
    unfold no_new_run, after; cbn [w_log]; rewrite filter_app;
    cbn [filter is_run]; apply app_nil_r.
Qed.

Lemma clear_action_unavailable (command : string) (w : World) :
  available (w_ai w) = false ->
  ai_untouched w (snd (act_clear_history command w)).
Proof.
  intros Hav.
  assert (H : respects ai_untouched (speak msg_ai_unavailable ;; ret NextTurn))
    by untouched.
  specialize (H w).
  unfold act_clear_history, is_available, bind, get_ai, ret in *.
  rewrite Hav. exact H.
Qed.

Lemma default_action_unavailable (command : string) (w : World) :
  available (w_ai w) = false ->
  ai_untouched w (snd (act_default command w)).
Proof.
  intros Hav. rewrite act_default_unfold, Hav.
  assert (H : respects ai_untouched (speak (echo_reply command) ;; ret NextTurn))
    by untouched.
  apply H.
Qed.

(** X7. While a rule fires, or the handler is unavailable, a command
    has no process run; and unless the rule that fires is clear-history
    with the handler available, the AI object is left exactly as it
    was.  The model process is run by the default action alone, on an
    available handler. *)
Theorem canned_intents_leave_ai_alone (command : string) (w : World) :
  (exists r, fires command r) \/ available (w_ai w) = false ->
  no_new_run w (snd (dispatch command w)) /\
  (~ fires command rule_clear_history \/ available (w_ai w) = false ->
   same_ai w (snd (dispatch command w))).
Proof.
  destruct (canned_actions_untouched command)
    as [Hwake [Hhello [Htime [Hdate [Hstatus [Hthanks Hexit]]]]]].
  destruct (updater_actions_untouched command) as [Hcheck [Hupdate Hversion]].
  unfold fires, dispatch. unfold_table.
  chain_cases; intros Hfires;
    try (split; [apply Hwake | intros _; apply Hwake]);
    try (split; [apply Hhello | intros _; apply Hhello]);
    try (split; [apply Htime | intros _; apply Htime]);
    try (split; [apply Hdate | intros _; apply Hdate]);
    try (split; [apply Hstatus | intros _; apply Hstatus]);
    try (split; [apply Hthanks | intros _; apply Hthanks]);
    try (split; [apply Hcheck | intros _; apply Hcheck]);
    try (split; [apply Hupdate | intros _; apply Hupdate]);
    try (split; [apply Hversion | intros _; apply Hversion]);
    try (split; [apply Hexit | intros _; apply Hexit]).
  - split; [apply clear_action_no_run|].
    intros [Hno|Hav]; [destruct (Hno eq_refl)|].
    apply clear_action_unavailable, Hav.
  - destruct Hfires as [[r Hr]|Hav]; [discriminate|].
    split; [|intros _]; apply default_action_unavailable, Hav.
Qed.

(** ** What the loop does to the AI object *)

Lemma ai_step_refl (self : OllamaHandler) : ai_step self self.
Proof. left. reflexivity. Qed.

Lemma default_action_ai_step (command : string) (w : World) :
  ai_step (w_ai w) (w_ai (snd (act_default command w))).
Proof.
  destruct (available (w_ai w)) eqn:Hav.
  - rewrite act_default_unfold, Hav. unfold bind at 1. rewrite speak_spec.
    destruct (tts env (w_tick w)) as [[]|[]]; try apply ai_step_refl;
      unfold bind at 1;
      destruct (ask command true (after (Speak msg_thinking) w))
        as [[response|e] w2] eqn:Hask;
      rewrite ?speak_then_world; cbn [snd after w_ai];
      destruct (ask_history_step _ _ _ _ _ Hask)
        as [Hsame|[result [_ [_ [_ [_ Hrec]]]]]];
      try (rewrite Hsame; apply ai_step_refl);
      rewrite Hrec; right; right; eauto.
  - destruct (default_action_unavailable command w Hav) as [H _].
    rewrite H. apply ai_step_refl.
Qed.

Lemma clear_action_ai_step (command : string) (w : World) :
  ai_step (w_ai w) (w_ai (snd (act_clear_history command w))).
Proof.
  unfold act_clear_history, is_available, bind, get_ai, ret,
    clear_history, modify_ai.
  destruct (available (w_ai w)); rewrite speak_spec;
    destruct (tts env _) as [[]|[]]; cbn [snd after w_ai];
    solve [left; reflexivity | right; left; reflexivity].
Qed.

(** A command changes the AI object by one step at most. *)
Lemma dispatch_ai_step (command : string) (w : World) :
  ai_step (w_ai w) (w_ai (snd (dispatch command w))).
Proof.
  destruct (canned_actions_untouched command)
    as [Hwake [Hhello [Htime [Hdate [Hstatus [Hthanks Hexit]]]]]].
  destruct (updater_actions_untouched command) as [Hcheck [Hupdate Hversion]].
  unfold dispatch.
  chain_cases;
    try apply clear_action_ai_step;
    try apply default_action_ai_step;
    left;
    first [ apply Hwake | apply Hhello | apply Htime | apply Hdate
          | apply Hstatus | apply Hthanks | apply Hcheck | apply Hupdate
          | apply Hversion | apply Hexit ].
Qed.

Lemma turn_ai_step (w : World) :
  ai_step (w_ai w) (w_ai (snd (turn w))).
Proof.
  assert (Hbody : ai_step (w_ai w) (w_ai (snd (turn_body w)))).
  { unfold turn_body, bind. rewrite listen_spec.
    destruct (mic env (w_tick w)) as [text|[]]; try apply ai_step_refl;
      match goal with
      | |- context [str_falsy ?s] => destruct (str_falsy s)
      end;
      try apply ai_step_refl;
      apply (dispatch_ai_step _ (after (Listen 10) w)). }
  unfold turn, guarded, try_except.
  destruct (turn_body w) as [[c|e] w1]; cbn [snd] in *; [exact Hbody|].
  destruct e; cbn [find fst snd isinstance_KeyboardInterrupt isinstance_Exception];
    unfold on_interrupt, on_error; rewrite speak_then_world; exact Hbody.
Qed.

(** Whatever is kept by a clear and by a recorded exchange is kept by
    the loop. *)
Lemma loop_ai_invariant (P : OllamaHandler -> Prop) :
  (forall self, P self -> P (set_conversation_history [] self)) ->
  (forall self sent response, P self -> P (record_exchange self sent response)) ->
  forall fuel w, P (w_ai w) -> P (w_ai (snd (main_loop fuel w))).
Proof.
  intros Hclear Hrec. unfold main_loop.
  induction fuel as [|fuel IH]; intros w HP; [exact HP|].
  cbn [loop]. unfold bind.
  assert (Hturn : P (w_ai (snd (turn w)))).
  { destruct (turn_ai_step w) as [H|[H|[sent [response H]]]]; rewrite H; auto. }
  destruct (turn w) as [[[|]|e] w1]; cbn [snd] in *; auto.
Qed.

Lemma record_exchange_settings (self : OllamaHandler) (sent response : string) :
  model (record_exchange self sent response) = model self /\
  max_history (record_exchange self sent response) = max_history self /\
  system_prompt (record_exchange self sent response) = system_prompt self /\
  available (record_exchange self sent response) = available self.
Proof.
  unfold record_exchange.
  destruct (cap_history_fields
    (set_conversation_history
       (conversation_history self
          ++ [mkMessage "user" sent; mkMessage "assistant" response]) self))
    as [H1 [H2 [H3 H4]]].
  rewrite H1, H2, H3, H4. repeat split.
Qed.

(** X8. The loop never changes the settings of the AI object: the
    model name, [max_history], the system prompt and the availability
    found at start-up hold for as long as the loop runs.  A model
    installed, or removed, while the program runs goes unnoticed. *)
Theorem loop_keeps_settings (fuel : nat) (w : World) :
  same_settings w (snd (main_loop fuel w)).
Proof.
  apply (loop_ai_invariant (fun self =>
    model self = model (w_ai w) /\
    max_history self = max_history (w_ai w) /\
    system_prompt self = system_prompt (w_ai w) /\
    available self = available (w_ai w))).
  - intros self H. exact H.
  - intros self sent response [H1 [H2 [H3 H4]]].
    destruct (record_exchange_settings self sent response) as [E1 [E2 [E3 E4]]].
    repeat split; congruence.
  - repeat split.
Qed.

(** X9. Through any number of turns the loop keeps the history a
    sequence of user/assistant pairs, whatever [max_history] is; and,
    [max_history] being at least 1, it keeps the history within
    [2 * max_history] entries if it was. *)
Theorem loop_keeps_history_shape (fuel : nat) (w : World) :
  (paired (conversation_history (w_ai w)) = true ->
   paired (conversation_history (w_ai (snd (main_loop fuel w)))) = true) /\
  (1 <= max_history (w_ai w) ->
   (length (conversation_history (w_ai w)) <= cap (w_ai w))%nat ->
   (length (conversation_history (w_ai (snd (main_loop fuel w))))
    <= cap (w_ai w))%nat).
Proof.
  split.
  - intros Hp.
    apply (loop_ai_invariant (fun self =>
      paired (conversation_history self) = true)).
    + intros self _. reflexivity.
    + intros self sent response H. apply record_exchange_paired, H.
    + exact Hp.
  - intros Hm Hlen.
    apply (loop_ai_invariant (fun self =>
      max_history self = max_history (w_ai w) /\
      (length (conversation_history self) <= cap (w_ai w))%nat)).
    + intros self [H1 H2]. split; [exact H1 | cbn; lia].
    + intros self sent response [H1 H2].
      destruct (record_exchange_settings self sent response) as [_ [E2 _]].
      split; [congruence|].
      rewrite record_exchange_history by lia.
      rewrite keep_last_length. unfold cap. rewrite H1. lia.
    + split; [reflexivity | exact Hlen].
Qed.

(** ** Turns that end without an action, and turns that end the loop *)


(** X11. When the body of a turn raises a keyboard interrupt, the
    guarded turn calls [speak] once, with the acknowledgement, and
    breaks the loop; only a second interrupt, cutting that speech, gets
    out of the turn. *)
Theorem interrupt_acknowledged (body : M LoopCtl) (w w1 : World) :
  body w = (Raise KeyboardInterrupt, w1) ->
  guarded body w =
    (match tts env (w_tick w1) with
     | Raise KeyboardInterrupt => Raise KeyboardInterrupt
     | _ => Ok BreakLoop
     end, after (Speak msg_interrupt) w1) /\
  (tts env (w_tick w1) <> Raise KeyboardInterrupt ->
   forall fuel,
     loop (guarded body) (S fuel) w
     = (Ok Broke, after (Speak msg_interrupt) w1)).
Proof.
  intros Hbody.
  assert (Hg : guarded body w =
               (match tts env (w_tick w1) with
                | Raise KeyboardInterrupt => Raise KeyboardInterrupt
                | _ => Ok BreakLoop
                end, after (Speak msg_interrupt) w1)).
  { unfold guarded, try_except. rewrite Hbody.
    cbn [find fst snd isinstance_KeyboardInterrupt].
    unfold on_interrupt, bind, ret. rewrite speak_spec.
    destruct (tts env (w_tick w1)) as [[]|[]]; reflexivity. }
  split; [exact Hg|].
  intros Htts fuel. cbn [loop]. unfold bind at 1. rewrite Hg.
  destruct (tts env (w_tick w1)) as [[]|[]]; try reflexivity; congruence.
Qed.

Lemma speak_ok (text : string) (w : World) :
  tts env (w_tick w) <> Raise KeyboardInterrupt ->
  speak text w = (Ok tt, after (Speak text) w).
Proof.
  intros H. rewrite speak_spec.
  destruct (tts env (w_tick w)) as [[]|[]]; try reflexivity; congruence.
Qed.

(** X12. When the exit intent fires on what was heard, the turn speaks
    the farewell and breaks the loop, whatever the AI object and the
    remaining fuel are. *)
Theorem exit_intent_breaks (w : World) (command : string) :
  listen 10 w = (Ok command, after (Listen 10) w) ->
  command <> "" ->
  fires command rule_exit ->
  tts env (S (w_tick w)) <> Raise KeyboardInterrupt ->
  turn w = (Ok BreakLoop, after (Speak msg_farewell) (after (Listen 10) w)) /\
  forall fuel,
    main_loop (S fuel) w
    = (Ok Broke, after (Speak msg_farewell) (after (Listen 10) w)).
Proof.
  intros Hlisten Hne Hfires Htts.
  assert (Hturn : turn w =
            (Ok BreakLoop, after (Speak msg_farewell) (after (Listen 10) w))).
  { unfold turn, guarded, try_except, turn_body. unfold bind at 1.
    rewrite Hlisten. apply str_falsy_false in Hne. rewrite Hne.
    rewrite (fires_action _ _ Hfires). cbn [action rule_exit].
    unfold act_exit, bind, ret. rewrite speak_ok by exact Htts. reflexivity. }
  split; [exact Hturn|].
  intros fuel. unfold main_loop. cbn [loop]. unfold bind at 1.
  rewrite Hturn. reflexivity.
Qed.

(** ** Triggers that earlier rules shadow *)

Lemma occurs_trans (a b c : string) :
  occurs a b -> occurs b c -> occurs a c.
Proof.
  intros [p1 [q1 H1]] [p2 [q2 H2]]. subst b c.
  exists (p2 ++ p1), (q1 ++ q2). rewrite !append_assoc. reflexivity.
Qed.

Lemma hi_greets (command : string) :
  occurs "hi" command -> fires command rule_wake \/ fires command rule_hello.
Proof.
  intros H. apply str_in_occurs in H.
  unfold fires. unfold_table. rewrite H, orb_true_r.
  destruct (_ || _); [left | right]; reflexivity.
Qed.

(** X13. A command with "hi" anywhere in it, as in "this", "which",
    "phishing" or "history", is answered by the wake rule or by the
    greeting rule.  So "clear history" never reaches the clear-history
    rule: that rule fires only on "reset conversation". *)
Theorem hi_shadows_later_rules (command : string) :
  (occurs "hi" command ->
   fires command rule_wake \/ fires command rule_hello) /\
  (occurs "clear history" command ->
   fires command rule_wake \/ fires command rule_hello) /\
  (fires command rule_clear_history ->
   occurs "reset conversation" command /\ ~ occurs "hi" command).
Proof.
  assert (Hsub : occurs "hi" "clear history")
    by (apply str_in_occurs; reflexivity).
  split; [apply hi_greets|]. split.
  - intros H. apply hi_greets. exact (occurs_trans _ _ _ Hsub H).
  - intros Hfires.
    assert (Hno : ~ occurs "hi" command).
    { intros Hhi. unfold fires in *.
      destruct (hi_greets _ Hhi) as [H|H]; unfold fires in H;
        rewrite H in Hfires; discriminate. }
    split; [|exact Hno].
    destruct (fires_triggered _ _ Hfires) as [t [[<-|[<-|[]]] Hocc]];
      [|exact Hocc].
    destruct Hno. exact (occurs_trans _ _ _ Hsub Hocc).
Qed.

(** ** Start-up *)

(** X14. When the construction of the voice handler raises an
    [Exception], [main] exits with code 1 at once: nothing is spoken, no
    process is run, Ollama is never looked for. *)
Theorem init_failure_is_fatal (fuel : nat) (w : World) (e : exn) :
  voice_ctor env (w_tick w) = Raise e ->
  e <> KeyboardInterrupt ->
  main fuel w = (Exited 1, after (VoiceInit true) w).
Proof.
  intros Hctor He.
  unfold main, startup, VoiceHandler_init. unfold bind at 1 2.
  unfold external at 1. rewrite Hctor.
  destruct e; try congruence; reflexivity.
Qed.

Lemma spoken_app (a b : list Event) : spoken (a ++ b) = (spoken a ++ spoken b)%list.
Proof. apply flat_map_app. Qed.

Lemma commands_run_app (a b : list Event) :
  commands_run (a ++ b) = (commands_run a ++ commands_run b)%list.
Proof. apply flat_map_app. Qed.

(** The world [_check_ollama] leaves: only the availability is set, and
    nothing is spoken. *)
Lemma check_ollama_world (w : World) :
  (exists b, w_ai (snd (_check_ollama w)) = set_available b (w_ai w)) /\
  spoken (w_log (snd (_check_ollama w))) = spoken (w_log w) /\
  (proc env (w_tick w) <> Raise KeyboardInterrupt ->
   proc env (S (w_tick w)) <> Raise KeyboardInterrupt ->
   fst (_check_ollama w) = Ok tt).
Proof.
  assert (Hsame : w_ai w = set_available (available (w_ai w)) (w_ai w))
    by (destruct (w_ai w); reflexivity).
  unfold _check_ollama, try_except, bind, subprocess_run, external, get_ai,
    modify_ai, after.
  destruct (proc env (w_tick w)) as [r1|e1].
  - destruct (returncode r1 =? 0); cbn.
    + destruct (proc env (S (w_tick w))) as [r2|e2]; cbn.
      * destruct (str_in (model (w_ai w)) (stdout r2)); cbn;
          rewrite !spoken_app; cbn; rewrite !app_nil_r; eauto.
      * destruct e2; cbn; rewrite !spoken_app; cbn; rewrite !app_nil_r;
          repeat split; eauto; congruence.
    + rewrite !spoken_app; cbn; rewrite !app_nil_r; eauto.
  - destruct e1; cbn; rewrite !spoken_app; cbn; rewrite !app_nil_r;
      repeat split; eauto; congruence.
Qed.

(** X15. Trouble with Ollama is never fatal.  When the voice handler is
    constructed and no keyboard interrupt arrives, the start-up
    completes whatever the two checking processes do, with a new
    handler (empty history, [max_history = 2]) and three things said:
    that the system is online, whether the AI is available, and how to
    call or leave. *)
Theorem startup_survives_ollama (w : World) :
  voice_ctor env (w_tick w) = Ok tt ->
  never_interrupted ->
  exists w' b,
    startup w = (Ok tt, w') /\
    w_ai w' = set_available b (new_handler "qwen2.5:0.5b") /\
    spoken (w_log w') =
      (spoken (w_log w) ++
       ["System online. Rose activated and ready.";
        if b
        then "Artificial intelligence module loaded. I can help with cybersecurity questions."
        else "Running in basic mode. AI features unavailable.";
        "Say hey rose to get my attention, or say exit to shut down."])%list.
Proof.
  intros Hctor Hnever.
  unfold startup, VoiceHandler_init. unfold bind at 1. unfold external at 1.
  rewrite Hctor.
  unfold OllamaHandler_init. unfold bind at 1. unfold bind at 1.
  unfold modify_ai at 1.
  set (w0 := mkWorld _ _ _).
  destruct (check_ollama_world w0) as [[b Hai] [Hsp Hok]].
  specialize (Hok (proj2 (Hnever _)) (proj2 (Hnever _))).
  destruct (_check_ollama w0) as [r w1]. cbn [fst snd] in *. subst r.
  unfold bind at 1. rewrite speak_ok by apply Hnever.
  unfold is_available. unfold bind at 1 2. unfold get_ai at 1.
  unfold ret at 1. cbn [after w_ai].
  exists (after (Speak "Say hey rose to get my attention, or say exit to shut down.")
            (after (Speak (if b
               then "Artificial intelligence module loaded. I can help with cybersecurity questions."
               else "Running in basic mode. AI features unavailable."))
               (after (Speak "System online. Rose activated and ready.") w1))), b.
  rewrite Hai. cbn [available set_available].
  unfold bind at 1.
  destruct b; rewrite speak_ok by apply Hnever;
    rewrite speak_ok by apply Hnever;
    (split; [reflexivity|]); (split; [exact Hai|]);
    cbn [after w_log]; rewrite !spoken_app, Hsp; cbn [spoken flat_map app];
    unfold w0; cbn [w_log after]; rewrite spoken_app;
    cbn [spoken flat_map app];
    rewrite <- !app_assoc, ?app_nil_r; reflexivity.
Qed.

Lemma startup_handler (w : World) :
  voice_ctor env (w_tick w) = Ok tt ->
  exists b, w_ai (snd (startup w)) = set_available b (new_handler "qwen2.5:0.5b").
Proof.
  intros Hctor.
  unfold startup, VoiceHandler_init. unfold bind at 1. unfold external at 1.
  rewrite Hctor.
  unfold OllamaHandler_init. unfold bind at 1. unfold bind at 1.
  unfold modify_ai at 1.
  set (w0 := mkWorld _ _ _).
  destruct (check_ollama_world w0) as [[b Hai] _].
  exists b.
  destruct (_check_ollama w0) as [[[]|e] w1]; cbn [snd] in *; [|exact Hai].
  assert (Hrest : respects ai_untouched
    (speak "System online. Rose activated and ready." ;;
     avail <- is_available ;;
     (if avail
      then speak "Artificial intelligence module loaded. I can help with cybersecurity questions."
      else speak "Running in basic mode. AI features unavailable.") ;;
     speak "Say hey rose to get my attention, or say exit to shut down.")).
  { unfold is_available, get_ai. untouched.
    intros w2. apply ai_untouched_refl. }
  destruct (Hrest w1) as [Hsame _]. unfold same_ai in Hsame.
  rewrite Hsame. exact Hai.
Qed.

(** X16. Once the voice handler is constructed, then for as long as
    [main] runs and however it ends, the AI object keeps the model name
    and the system prompt it was given and [max_history = 2], and its
    history is a sequence of user/assistant pairs of at most four
    entries. *)
Theorem program_history_bounded (fuel : nat) (w : World) :
  voice_ctor env (w_tick w) = Ok tt ->
  model (w_ai (snd (main fuel w))) = "qwen2.5:0.5b" /\
  system_prompt (w_ai (snd (main fuel w))) = the_system_prompt /\
  max_history (w_ai (snd (main fuel w))) = 2 /\
  paired (conversation_history (w_ai (snd (main fuel w)))) = true /\
  (length (conversation_history (w_ai (snd (main fuel w)))) <= 4)%nat.
Proof.
  intros Hctor.
  set (P := fun self : OllamaHandler =>
    model self = "qwen2.5:0.5b" /\
    system_prompt self = the_system_prompt /\
    max_history self = 2 /\
    paired (conversation_history self) = true /\
    (length (conversation_history self) <= 4)%nat).
  change (P (w_ai (snd (main fuel w)))).
  assert (Hstart : P (w_ai (snd (startup w)))).
  { destruct (startup_handler w Hctor) as [b ->]. unfold P. cbn.
    repeat apply conj; try reflexivity. lia. }
  assert (Hloop : forall w1, P (w_ai w1) -> P (w_ai (snd (main_loop fuel w1)))).
  { apply loop_ai_invariant.
    - intros self [H1 [H2 [H3 _]]]. unfold P. cbn.
      repeat apply conj; auto; lia.
    - intros self sent response [H1 [H2 [H3 [H4 H5]]]].
      destruct (record_exchange_settings self sent response) as [E1 [E2 [E3 _]]].
      unfold P. rewrite E1, E2, E3.
      repeat apply conj; auto; [apply record_exchange_paired, H4|].
      rewrite record_exchange_history by lia.
      rewrite keep_last_length. unfold cap. rewrite H3. lia. }
  unfold main, bind.
  destruct (startup w) as [[[]|e] w1]; cbn [snd] in *.
  - specialize (Hloop w1 Hstart).
    destruct (main_loop fuel w1) as [[[|]|e] w2]; cbn [snd] in *;
      [exact Hloop | exact Hloop |].
    destruct (isinstance_Exception e); exact Hloop.
  - destruct (isinstance_Exception e); exact Hstart.
Qed.

(** ** Clearing, then asking *)

(** X17. After [clear_history] the next question goes to the model with
    no context: the prompt is the system prompt and the question alone,
    whatever the history held; and when the model answers, with
    [max_history] at least 1, the history is that one exchange. *)
Theorem clear_then_ask_is_fresh (q : string) (brief : bool) (w : World) :
  available (w_ai w) = true ->
  commands_run (w_log (snd ((clear_history ;; ask q brief) w)))
  = (commands_run (w_log w)
     ++ [["ollama"; "run"; model (w_ai w);
          ("System: " ++ system_prompt (w_ai w) ++ NL ++ NL
           ++ "User: " ++ sent_text q brief ++ NL ++ NL ++ "Assistant:")%string]])%list /\
  (forall result,
     proc env (w_tick w) = Ok result -> returncode result = 0 ->
     1 <= max_history (w_ai w) ->
     conversation_history (w_ai (snd ((clear_history ;; ask q brief) w)))
     = [mkMessage "user" (sent_text q brief);
        mkMessage "assistant" (str_strip (stdout result))]).
Proof.
  intros Hav.
  unfold bind, clear_history, modify_ai.
  set (w0 := mkWorld _ _ _).
  assert (Hav0 : available (w_ai w0) = true) by exact Hav.
  pose proof (ask_spec q brief w0) as Hask.
  rewrite Hav0 in Hask. cbn [negb] in Hask. cbv zeta in Hask.
  assert (Hargv : ask_argv (w_ai w0) q brief =
    ["ollama"; "run"; model (w_ai w);
     "System: " ++ system_prompt (w_ai w) ++ NL ++ NL
     ++ "User: " ++ sent_text q brief ++ NL ++ NL ++ "Assistant:"]).
  { unfold ask_argv, _format_messages, w0.
    cbn [w_ai model system_prompt conversation_history set_conversation_history
         app flat_map format_part role content String.eqb Ascii.eqb Bool.eqb join].
    rewrite !append_assoc. reflexivity. }
  rewrite Hargv in Hask. split.
  - rewrite Hask.
    destruct (proc env (w_tick w0)) as [result|[]];
      [destruct (returncode result =? 0)| | | |];
      cbn [snd after w_log]; rewrite commands_run_app; reflexivity.
  - intros result Hproc Hrc Hm.
    change (w_tick w0) with (w_tick w) in Hask.
    rewrite Hask, Hproc, Hrc. cbn [Z.eqb snd w_ai].
    rewrite record_exchange_history by exact Hm.
    apply keep_last_short. unfold cap, w0.
    cbn [w_ai max_history set_conversation_history conversation_history
         app length].
    lia.
Qed.

(** ** The microphone and the headset mode *)

Lemma first_index_spec {A : Type} (test : A -> bool) (names : list A) :
  forall start,
  match first_index test names start with
  | Some i =>
      (start <= i)%nat /\
      exists name, nth_error names (i - start) = Some name /\
        test name = true /\
        forall j other, (j < i - start)%nat ->
          nth_error names j = Some other -> test other = false
  | None => forall name, In name names -> test name = false
  end.
Proof.
  induction names as [|name rest IH]; intros start; cbn [first_index].
  - intros name [].
  - destruct (test name) eqn:Htest.
    + split; [lia|]. exists name. rewrite Nat.sub_diag.
      repeat split; auto. intros j other Hj. lia.
    + specialize (IH (S start)).
      destruct (first_index test rest (S start)) as [i|].
      * destruct IH as [Hle [found [Hnth [Hfound Hlow]]]].
        split; [lia|]. exists found.
        replace (i - start)%nat with (S (i - S start)) by lia.
        repeat split; auto.
        intros [|j] other Hj; cbn [nth_error].
        -- intros [= <-]. exact Htest.
        -- apply Hlow. lia.
      * intros other [<-|Hin]; auto.
Qed.

(** X18. [_select_microphone] selects, when Bluetooth is preferred, the
    first microphone listed whose lower-cased name contains one of the
    five keywords, and none when Bluetooth is not preferred, when no
    microphone is listed or when no name has a keyword; with none
    selected, the set-up that follows touches no process. *)
Theorem select_microphone_first_bluetooth
        (mic_names : list string) (prefer_bluetooth : bool) :
  match _select_microphone mic_names prefer_bluetooth with
  | Some i =>
      prefer_bluetooth = true /\
      exists name, nth_error mic_names i = Some name /\
        is_bluetooth_name name = true /\
        forall j other, (j < i)%nat ->
          nth_error mic_names j = Some other -> is_bluetooth_name other = false
  | None =>
      (prefer_bluetooth = false \/
       forall name, In name mic_names -> is_bluetooth_name name = false) /\
      forall w, microphone_setup mic_names prefer_bluetooth w = (Ok None, w)
  end.
Proof.
  unfold microphone_setup, _select_microphone.
  destruct mic_names as [|first rest].
  - split; [right; intros name []|reflexivity].
  - destruct prefer_bluetooth.
    + pose proof (first_index_spec is_bluetooth_name (first :: rest) 0) as H.
      destruct (first_index is_bluetooth_name (first :: rest) 0) as [i|].
      * destruct H as [_ H]. rewrite Nat.sub_0_r in H. split; [reflexivity|exact H].
      * split; [right; exact H | reflexivity].
    + split; [left; reflexivity | reflexivity].
Qed.

Lemma switch_first_card_find (lines : list string) :
  switch_first_card lines =
  match find (str_in "bluez_card") lines with
  | Some line =>
      card_name <- second_token line ;;
      subprocess_run
        ["pactl"; "set-card-profile"; card_name; "headset_head_unit"] 5 ;;
      ret tt
  | None => ret tt
  end.
Proof.
  induction lines as [|line rest IH]; cbn [switch_first_card find];
    [reflexivity|].
  destruct (str_in "bluez_card" line); [reflexivity | exact IH].
Qed.

(** X19. [_set_bluetooth_headset_mode] never raises an [Exception].
    It lists the cards, and then sets the headset profile at most once:
    for the first line of the listing that contains [bluez_card], on the
    card named by the second word of that line.  When that line has no
    second word nothing is set, even if a later line names a card; and
    the AI object is never touched. *)
Theorem headset_mode_first_card (w : World) :
  (fst (_set_bluetooth_headset_mode w) = Ok tt \/
   fst (_set_bluetooth_headset_mode w) = Raise KeyboardInterrupt) /\
  w_ai (snd (_set_bluetooth_headset_mode w)) = w_ai w /\
  commands_run (w_log (snd (_set_bluetooth_headset_mode w)))
  = (commands_run (w_log w)
     ++ [["pactl"; "list"; "cards"; "short"]]
     ++ match proc env (w_tick w) with
        | Ok result =>
            match find (str_in "bluez_card")
                       (split_on "010"%char (stdout result)) with
            | Some line =>
                match nth_error (str_split line) 1 with
                | Some card_name =>
                    [["pactl"; "set-card-profile"; card_name;
                      "headset_head_unit"]]
                | None => []
                end
            | None => []
            end
        | Raise _ => []
        end)%list.
Proof.
  unfold _set_bluetooth_headset_mode, try_except, bind, subprocess_run,
    external.
  destruct (proc env (w_tick w)) as [result|e].
  - rewrite switch_first_card_find.
    destruct (find (str_in "bluez_card") (split_on "010"%char (stdout result)))
      as [line|].
    + unfold second_token, bind, subprocess_run, external, ret, raise.
      destruct (nth_error (str_split line) 1) as [card_name|].
      * cbn [after w_tick].
        destruct (proc env (S (w_tick w))) as [r2|[]];
          cbn [find fst snd isinstance_TimeoutExpired isinstance_Exception
               after w_ai w_log];
          rewrite !commands_run_app;
          (split; [auto|]); (split; [reflexivity|]);
          cbn [commands_run flat_map app];
          rewrite <- ?app_assoc, ?app_nil_r; reflexivity.
      * cbn [find fst snd isinstance_TimeoutExpired isinstance_Exception
             after w_ai w_log].
        rewrite !commands_run_app;
          (split; [auto|]); (split; [reflexivity|]);
          cbn [commands_run flat_map app];
          rewrite <- ?app_assoc, ?app_nil_r; reflexivity.
    + unfold ret. cbn [fst snd after w_ai w_log].
      rewrite !commands_run_app;
          (split; [auto|]); (split; [reflexivity|]);
          cbn [commands_run flat_map app];
          rewrite <- ?app_assoc, ?app_nil_r; reflexivity.
  - destruct e;
      cbn [find fst snd isinstance_TimeoutExpired isinstance_Exception
           after w_ai w_log ret];
      rewrite !commands_run_app;
          (split; [auto|]); (split; [reflexivity|]);
          cbn [commands_run flat_map app];
          rewrite <- ?app_assoc, ?app_nil_r; reflexivity.
Qed.

End Rose.

(** * Examples: the theorems at concrete collaborators *)

Import Scenario.

(** The program at the stand-ins of [Scenario], by environment. *)
Local Abbreviation turn_body_at env :=
  (turn_body lower strip unit strf env
             check_for_updates perform_update get_current_version)
  (only parsing).
Local Abbreviation dispatch_at env :=
  (dispatch strip unit strf env
            check_for_updates perform_update get_current_version)
  (only parsing).
Local Abbreviation fires_at env :=
  (fires unit strf env check_for_updates perform_update get_current_version)
  (only parsing).
Local Abbreviation main_at env :=
  (main lower strip unit strf env
        check_for_updates perform_update get_current_version)
  (only parsing).
Local Abbreviation ask_at env := (ask strip unit env) (only parsing).
Local Abbreviation ask_each_at env := (ask_each strip unit env) (only parsing).

Local Abbreviation wake_env := (env_of (hears "hello rose what time is it") fails)
  (only parsing).

(** "hello rose what time is it" has triggers of three rules; the first
    of them, the wake rule, is the one whose action runs. *)
Lemma first_match_wins_witness :
  turn_body_at wake_env (world ready)
  = act_wake unit wake_env "hello rose what time is it"
             (after (Listen 10) (world ready)).
Proof.
  destruct (first_match_wins lower strip unit strf wake_env
              check_for_updates perform_update get_current_version
              (world ready) "hello rose what time is it"
              (after (Listen 10) (world ready)) eq_refl)
    as [H _].
  - discriminate.
  - exact H.
Defined.

(** "clear history" contains "hi": the greeting rule comes first. *)
Example clear_history_phrase_greets :
  fires_at wake_env "clear history" (rule_hello unit wake_env).
Proof. reflexivity. Qed.

Local Abbreviation numbered_env := (env_of (hears "") numbered) (only parsing).

(** Three answered questions with the default cap of two exchanges: the
    history holds the last two, the first is gone.  On a handler with
    one exchange recorded, a call that fails leaves the history as it
    was, and a call that is answered leaves the two exchanges. *)
Lemma history_cap_fifo_witness :
  1 <= max_history ready /\
  conversation_history
    (w_ai (snd (ask_each_at numbered_env ["a"; "b"; "c"] (world ready))))
  = [mkMessage "user" ("b" ++ brief_suffix); mkMessage "assistant" "r1";
     mkMessage "user" ("c" ++ brief_suffix); mkMessage "assistant" "r2"] /\
  conversation_history
    (w_ai (snd (ask_at (env_of (hears "") fails) "q2" true (world talked))))
  = conversation_history talked /\
  conversation_history
    (w_ai (snd (ask_at (env_of (hears "") (answers "ok")) "q2" true
                  (world talked))))
  = [mkMessage "user" "q"; mkMessage "assistant" "a";
     mkMessage "user" ("q2" ++ brief_suffix); mkMessage "assistant" "ok"].
Proof.
  assert (H : 1 <= max_history (w_ai (world ready))) by (cbn; lia).
  split; [exact H|].
  destruct (history_cap_fifo strip unit numbered_env (world ready) H)
    as [_ [Hseq _]].
  destruct (Hseq eq_refl ["a"; "b"; "c"] ["r0"; "r1"; "r2"]
              (snd (ask_each_at numbered_env ["a"; "b"; "c"] (world ready)))
              eq_refl) as [_ Hfifo].
  destruct Hfifo as [_ Hlast].
  - vm_compute. intros Hc. discriminate Hc.
  - split; [exact Hlast|]. split.
    + destruct (history_cap_fifo strip unit (env_of (hears "") fails)
                  (world talked) H) as [Hcall _].
      destruct (Hcall "q2" true
                  (fst (ask_at (env_of (hears "") fails) "q2" true (world talked)))
                  (snd (ask_at (env_of (hears "") fails) "q2" true (world talked)))
                  eq_refl) as [_ [_ [Hfail _]]].
      apply Hfail. right. left. exists (mkCompleted 1 "" "").
      split; [reflexivity | discriminate].
    + destruct (history_cap_fifo strip unit (env_of (hears "") (answers "ok"))
                  (world talked) H) as [Hcall _].
      destruct (Hcall "q2" true
                  (fst (ask_at (env_of (hears "") (answers "ok")) "q2" true
                          (world talked)))
                  (snd (ask_at (env_of (hears "") (answers "ok")) "q2" true
                          (world talked)))
                  eq_refl) as [_ [Hok _]].
      destruct (Hok (mkCompleted 0 "ok" "") eq_refl eq_refl eq_refl)
        as [_ [Hh _]].
      exact Hh.
Defined.

Local Abbreviation zero_cap_run :=
  ((set_max_history 0 ;;
    ask_at (env_of (hears "") (answers "ok")) "q" true) (world ready))
  (only parsing).

Local Abbreviation lowered_cap_run :=
  ((ask_each_at (env_of (hears "") third_fails) ["a"; "b"] ;;
    set_max_history 1 ;;
    ask_at (env_of (hears "") third_fails) "c" true) (world ready))
  (only parsing).

(** With [max_history] set to 0 the slice [h[-0:]] is the whole list:
    one answered question leaves two entries, above the cap of zero.
    And a cap lowered to one exchange is not applied by a call that
    fails: four entries stay, above the cap of two. *)
Lemma history_cap_counterexample :
  (fst zero_cap_run = Ok "ok" /\
   2 * max_history (w_ai (snd zero_cap_run))
   < Z.of_nat (length (conversation_history (w_ai (snd zero_cap_run))))) /\
  (fst lowered_cap_run = Ok msg_trouble /\
   2 * max_history (w_ai (snd lowered_cap_run))
   < Z.of_nat (length (conversation_history (w_ai (snd lowered_cap_run))))).
Proof. repeat split; vm_compute; reflexivity. Qed.

Local Abbreviation exit_env := (env_of (hears "exit") (answers "qwen2.5:0.5b"))
  (only parsing).

(** Hearing "exit" in the first turn: the process exits with code 0,
    and the turn that ended the loop is the first one. *)
Lemma loop_ends_witness :
  fst (main_at exit_env 1 (world unready)) = Exited 0 /\
  exists w_ready k w0,
    startup unit exit_env (world unready) = (Ok tt, w_ready) /\
    (k < 1)%nat /\
    main_loop lower strip unit strf exit_env
      check_for_updates perform_update get_current_version k w_ready
    = (Ok StillLooping, w0).
Proof.
  split; [reflexivity|].
  destruct (loop_ends_only_by_exit_or_interrupt lower strip unit strf exit_env
              check_for_updates perform_update get_current_version
              1 (world unready) (Exited 0)
              (snd (main_at exit_env 1 (world unready))) eq_refl)
    as [[e [Hstart _]]|[w_ready [k [w0 [Hstart [Hk [Hrun _]]]]]]].
  - discriminate.
  - discriminate Hstart.
  - exists w_ready, k, w0. repeat split; assumption.
Defined.

Local Abbreviation version_env := (env_of (hears "what version") fails)
  (only parsing).


Local Abbreviation slow_env :=
  (env_of (hears "") (fun _ => Raise TimeoutExpired)) (only parsing).

(** A model process that times out: [ask] returns the timeout text. *)
Lemma ask_always_answers_witness :
  fst (ask_at slow_env "explain sql injection" true (world ready))
  = Ok msg_timeout.
Proof.
  destruct (ask_always_answers strip unit slow_env
              "explain sql injection" true (world ready)) as [[s [w' [H Hs]]] _].
  - discriminate.
  - cbn in Hs. rewrite H, Hs. reflexivity.
Defined.

Local Abbreviation reset_env := (env_of (hears "reset conversation") fails)
  (only parsing).

(** "reset conversation" on a handler with one exchange recorded. *)
Lemma clear_history_intent_witness :
  fires_at reset_env "reset conversation" (rule_clear_history unit reset_env) /\
  conversation_history
    (w_ai (snd (dispatch_at reset_env "reset conversation" (world talked)))) = [] /\
  w_log (snd (dispatch_at reset_env "reset conversation" (world talked)))
  = [Speak msg_history_cleared].
Proof.
  split; [reflexivity|].
  exact (clear_history_intent strip unit strf reset_env
           check_for_updates perform_update get_current_version
           "reset conversation" (world talked) eq_refl).
Defined.

(** "what version" with an updater that would work: [NameError]. *)
Lemma updater_intents_fail_witness :
  dispatch_at version_env "what version" (world ready)
  = (Raise (NameError "updater"), world ready).
Proof.
  destruct (updater_intents_fail strip unit strf version_env
              check_for_updates perform_update get_current_version
              "what version"
              (rule_version unit version_env get_current_version)
              (world ready) eq_refl) as [_ [_ [H _]]].
  - right. right. left. reflexivity.
  - exact (H eq_refl).
Defined.

Local Abbreviation failing_env := (env_of (hears "") fails) (only parsing).

(** A model process that exits with status 1: the handler is as before. *)
Lemma ask_failure_keeps_history_witness :
  fst (ask_at failing_env "q" true (world talked)) = Ok msg_trouble /\
  w_ai (snd (ask_at failing_env "q" true (world talked))) = talked.
Proof.
  split; [reflexivity|].
  destruct (ask_failure_keeps_history strip unit failing_env "q" true
              (world talked) (Ok msg_trouble)
              (snd (ask_at failing_env "q" true (world talked))) eq_refl)
    as [H _].
  apply H. right. left. exists (mkCompleted 1 "" "").
  split; [reflexivity | discriminate].
Defined.

Local Abbreviation answering_env := (env_of (hears "") (answers "ok"))
  (only parsing).

(** An answered question: the entry recorded carries the reminder. *)
Lemma brief_suffix_witness :
  conversation_history
    (w_ai (snd (ask_at answering_env "q" true (world ready))))
  = [mkMessage "user" ("q" ++ brief_suffix); mkMessage "assistant" "ok"].
Proof.
  destruct (brief_suffix_recorded_and_sent strip unit answering_env "q"
              (world ready) eq_refl) as [_ [_ [_ [_ H]]]].
  rewrite (H (mkCompleted 0 "ok" "") eq_refl eq_refl). reflexivity.
Defined.

(** "explain sql injection" with a model process that answers. *)
Lemma default_delegates_witness :
  w_log (snd (dispatch_at answering_env "explain sql injection" (world ready)))
  = [Speak msg_thinking;
     Run (ask_argv ready "explain sql injection" true) 60;
     Speak "ok"] /\
  conversation_history
    (w_ai (snd (dispatch_at answering_env "explain sql injection" (world ready))))
  = [mkMessage "user" ("explain sql injection" ++ brief_suffix);
     mkMessage "assistant" "ok"].
Proof.
  destruct (default_delegates_to_ai strip unit strf answering_env
              check_for_updates perform_update get_current_version
              "explain sql injection" (world ready))
    as [response [w1 [w2 [Hspeak [Hask [_ [Hlog Hai]]]]]]].
  - intros r Hin. apply rule_matches_not_triggered.
    revert r Hin. apply Forall_forall. repeat constructor.
  - reflexivity.
  - discriminate.
  - discriminate.
  - vm_compute in Hspeak. injection Hspeak as <-.
    vm_compute in Hask. injection Hask as <- _.
    rewrite Hlog, Hai. split; reflexivity.
Defined.

(** "explain sql injection" with the handler available and a model
    process that exits with status 1: no rule matches, the trouble text
    is spoken, and the history has not grown. *)
Lemma default_delegates_counterexample :
  forallb (fun r => negb (rule_matches "explain sql injection" r))
          (intent_table unit strf failing_env
             check_for_updates perform_update get_current_version) = true /\
  available (w_ai (world talked)) = true /\
  w_log (snd (dispatch_at failing_env "explain sql injection" (world talked)))
  = [Speak msg_thinking;
     Run (ask_argv talked "explain sql injection" true) 60;
     Speak msg_trouble] /\
  conversation_history
    (w_ai (snd (dispatch_at failing_env "explain sql injection" (world talked))))
  = conversation_history talked /\
  length (conversation_history
    (w_ai (snd (dispatch_at failing_env "explain sql injection" (world talked)))))
  <> (length (conversation_history talked) + 2)%nat.
Proof. repeat split; try reflexivity. vm_compute. discriminate. Qed.

(** * Examples for the further properties *)

(** A cap of -1 on an empty history: the exchange just recorded is
    dropped with the slice. *)
Lemma negative_cap_witness :
  max_history negative_cap = - Z.of_nat 1 /\
  conversation_history
    (w_ai (snd (ask_at answering_env "q" true (world negative_cap)))) = [].
Proof.
  split; [reflexivity|].
  destruct (nonpositive_cap_slices_from_front strip unit answering_env
              "q" true (world negative_cap) 1 (mkCompleted 0 "ok" "")
              eq_refl eq_refl eq_refl eq_refl) as [_ [_ H]].
  apply H. cbn. lia.
Defined.

(** A cap of 0: three answered questions leave six entries. *)
Lemma zero_cap_witness :
  length (conversation_history
    (w_ai (snd (ask_each_at numbered_env ["a"; "b"; "c"] (world zero_cap)))))
  = 6%nat.
Proof.
  rewrite (zero_cap_keeps_everything strip unit numbered_env
             ["a"; "b"; "c"] (world zero_cap) ["r0"; "r1"; "r2"]
             (snd (ask_each_at numbered_env ["a"; "b"; "c"] (world zero_cap)))
             eq_refl eq_refl eq_refl).
  reflexivity.
Defined.

Lemma ask_keeps_pairs_witness :
  paired (conversation_history
    (w_ai (snd (ask_at answering_env "again" true (world talked))))) = true.
Proof.
  exact (ask_keeps_pairs strip unit answering_env "again" true (world talked)
           eq_refl).
Defined.

(** "hey rose" with a model that would answer: no process, the handler
    as it was. *)
Lemma canned_intents_witness :
  commands_run
    (w_log (snd (dispatch_at answering_env "hey rose" (world talked)))) = [] /\
  w_ai (snd (dispatch_at answering_env "hey rose" (world talked))) = talked.
Proof.
  destruct (canned_intents_leave_ai_alone strip unit strf answering_env
              check_for_updates perform_update get_current_version
              "hey rose" (world talked)) as [_ Hsame].
  - left. exists (rule_wake unit answering_env). reflexivity.
  - split; [reflexivity|].
    apply Hsame. left. discriminate.
Defined.

Local Abbreviation asking_env :=
  (env_of (hears "explain sql injection") numbered) (only parsing).

(** Five turns of questions that are all answered, from one recorded
    exchange: the history reaches the four entries of the cap and stays
    there, in pairs.  With the cap at 0 three such turns leave six
    entries, in pairs still. *)
Lemma loop_keeps_history_shape_witness :
  (length (conversation_history
    (w_ai (snd (main_loop lower strip unit strf asking_env
                  check_for_updates perform_update get_current_version
                  5 (world talked))))) = 4%nat /\
   paired (conversation_history
    (w_ai (snd (main_loop lower strip unit strf asking_env
                  check_for_updates perform_update get_current_version
                  5 (world talked))))) = true /\
   (length (conversation_history
    (w_ai (snd (main_loop lower strip unit strf asking_env
                  check_for_updates perform_update get_current_version
                  5 (world talked)))))
    <= 4)%nat) /\
  (length (conversation_history
    (w_ai (snd (main_loop lower strip unit strf asking_env
                  check_for_updates perform_update get_current_version
                  3 (world zero_cap))))) = 6%nat /\
   paired (conversation_history
    (w_ai (snd (main_loop lower strip unit strf asking_env
                  check_for_updates perform_update get_current_version
                  3 (world zero_cap))))) = true).
Proof.
  destruct (loop_keeps_history_shape lower strip unit strf asking_env
              check_for_updates perform_update get_current_version
              5 (world talked)) as [Hpairs Hbound].
  destruct (loop_keeps_history_shape lower strip unit strf asking_env
              check_for_updates perform_update get_current_version
              3 (world zero_cap)) as [Hpairs0 _].
  split; [split; [|split]|split].
  - vm_compute. reflexivity.
  - apply Hpairs. reflexivity.
  - apply Hbound; cbn; lia.
  - vm_compute. reflexivity.
  - apply Hpairs0. reflexivity.
Defined.


(** The operator interrupts the listening: acknowledged, loop broken. *)
Lemma interrupt_acknowledged_witness :
  main_loop lower strip unit strf interrupted
    check_for_updates perform_update get_current_version 3 (world ready)
  = (Ok Broke, mkWorld ready 2 [Listen 10; Speak msg_interrupt]).
Proof.
  destruct (interrupt_acknowledged unit interrupted
              (turn_body_at interrupted) (world ready)
              (after (Listen 10) (world ready)) eq_refl) as [_ H].
  apply H. discriminate.
Defined.

Lemma exit_intent_breaks_witness :
  main_loop lower strip unit strf exit_env
    check_for_updates perform_update get_current_version 3 (world ready)
  = (Ok Broke, mkWorld ready 2 [Listen 10; Speak msg_farewell]).
Proof.
  destruct (exit_intent_breaks lower strip unit strf exit_env
              check_for_updates perform_update get_current_version
              (world ready) "exit") as [_ H].
  - reflexivity.
  - discriminate.
  - reflexivity.
  - discriminate.
  - apply H.
Defined.

(** No audio device: exit code 1, and the trace holds the failed
    construction alone. *)
Lemma init_failure_witness :
  main lower strip unit strf no_voice
       check_for_updates perform_update get_current_version 5 (world unready)
  = (Exited 1, mkWorld unready 1 [VoiceInit true]).
Proof.
  apply (init_failure_is_fatal lower strip unit strf no_voice
           check_for_updates perform_update get_current_version
           5 (world unready) (OtherException "no audio device")).
  - reflexivity.
  - discriminate.
Defined.

(** Ollama missing: the start-up completes, in basic mode. *)
Lemma startup_survives_witness :
  spoken (w_log (snd (startup unit failing_env (world unready))))
  = ["System online. Rose activated and ready.";
     "Running in basic mode. AI features unavailable.";
     "Say hey rose to get my attention, or say exit to shut down."].
Proof.
  destruct (startup_survives_ollama unit failing_env (world unready))
    as [w' [b [Hstart [Hai Hsp]]]].
  - reflexivity.
  - intros t. split; discriminate.
  - rewrite Hstart in *. cbn [snd].
    assert (Hb : b = false).
    { apply (f_equal available) in Hai.
      vm_compute in Hstart. injection Hstart as <-. exact (eq_sym Hai). }
    rewrite Hsp, Hb. reflexivity.
Defined.

Local Abbreviation chatting_env :=
  (env_of (hears "explain sql injection") (answers "qwen2.5:0.5b"))
  (only parsing).

(** Ollama found at start-up, then six questions, each answered: the
    handler is available, the history holds the last two exchanges, four
    entries in pairs, and the settings are those of the start. *)
Lemma program_history_bounded_witness :
  (fst (main_at chatting_env 6 (world unready)) = Running /\
   available (w_ai (snd (main_at chatting_env 6 (world unready)))) = true /\
   conversation_history (w_ai (snd (main_at chatting_env 6 (world unready))))
   = [mkMessage "user" ("explain sql injection" ++ brief_suffix);
      mkMessage "assistant" "qwen2.5:0.5b";
      mkMessage "user" ("explain sql injection" ++ brief_suffix);
      mkMessage "assistant" "qwen2.5:0.5b"] /\
   length (commands_run
             (w_log (snd (main_at chatting_env 6 (world unready))))) = 8%nat) /\
  (model (w_ai (snd (main_at chatting_env 6 (world unready))))
   = "qwen2.5:0.5b" /\
   system_prompt (w_ai (snd (main_at chatting_env 6 (world unready))))
   = the_system_prompt /\
   max_history (w_ai (snd (main_at chatting_env 6 (world unready)))) = 2 /\
   paired (conversation_history
             (w_ai (snd (main_at chatting_env 6 (world unready))))) = true /\
   (length (conversation_history
              (w_ai (snd (main_at chatting_env 6 (world unready))))) <= 4)%nat).
Proof.
  split.
  - repeat apply conj; vm_compute; reflexivity.
  - exact (program_history_bounded lower strip unit strf chatting_env
             check_for_updates perform_update get_current_version
             6 (world unready) eq_refl).
Defined.

(** Clearing a recorded exchange, then asking: the prompt has no trace
    of it. *)
Lemma clear_then_ask_witness :
  commands_run
    (w_log (snd ((clear_history ;; ask_at answering_env "q" false) (world talked))))
  = [["ollama"; "run"; "qwen2.5:0.5b";
      "System: " ++ the_system_prompt ++ NL ++ NL
      ++ "User: q" ++ NL ++ NL ++ "Assistant:"]].
Proof.
  destruct (clear_then_ask_is_fresh strip unit answering_env "q" false
              (world talked) eq_refl) as [H _].
  exact H.
Defined.

(** The second microphone is the first with a keyword in its name. *)
Example select_microphone_example :
  _select_microphone lower
    ["built-in audio"; "bluez_input.aa_bb"; "wireless headset"] true = Some 1%nat
  /\ _select_microphone lower ["built-in audio"; "bluez_input.aa_bb"] false = None
  /\ _select_microphone lower ["debt collector"] true = Some 0%nat.
Proof. repeat split. Qed.

(** The profile is set on the card of the first bluez line; a first
    bluez line of one word stops the method with nothing set. *)
Example headset_mode_example :
  commands_run
    (w_log (snd (_set_bluetooth_headset_mode unit
                   (env_of (hears "") (answers card_listing)) words
                   (world ready))))
  = [["pactl"; "list"; "cards"; "short"];
     ["pactl"; "set-card-profile"; "bluez_card.AA_BB"; "headset_head_unit"]]
  /\
  _set_bluetooth_headset_mode unit
    (env_of (hears "") (answers short_line_listing)) words (world ready)
  = (Ok tt, mkWorld ready 1 [Run ["pactl"; "list"; "cards"; "short"] 5]).
Proof. split; reflexivity. Qed.
